(** * upright_control: system_pinocchio_mapping.h

    A shallow embedding of the two Pinocchio state/input mappings of
    [upright_control/dynamics/system_pinocchio_mapping.h]:

    - [TripleIntegratorPinocchioMapping], the mapping of one
      triple-integrator body, instantiated at [OBSTACLE_DIMENSIONS] for a
      dynamic obstacle;
    - [SystemPinocchioMapping], which composes a robot mapping with one
      obstacle mapping per dynamic obstacle.

    Dense Eigen vectors are lists of scalars, dense Eigen matrices are a row
    count together with the list of their columns (Eigen's default storage
    order is column-major).  Every Eigen block expression carries an
    [eigen_assert] on its range and every assignment to a block one on the
    sizes of both sides; an operation whose assertion does not hold has no
    defined result and is [None] here.  Storage that the code allocates
    without initialising it holds indeterminate scalars, which are supplied
    by the [Uninit] class.  Sizes and loop counters are unbounded naturals. *)

From Stdlib Require Import List Arith Bool Lia ZArith Permutation.
Import ListNotations.

Set Implicit Arguments.

(** ** Assertion failures: a small error monad on [option] *)

Definition bind {A B : Type} (m : option A) (f : A -> option B) : option B :=
  match m with
  | Some a => f a
  | None => None
  end.

Notation "x <- m ;; k" := (bind m (fun x => k))
  (at level 61, m at next level, right associativity).
Notation "' p <- m ;; k" := (bind m (fun x => match x with p => k end))
  (at level 61, p pattern, m at next level, right associativity).

(** [for (int i = lo; i < lo + n; ++i) s = body(i, s)], stopping at the
    first failed assertion. *)
Fixpoint for_loop {St : Type} (n lo : nat) (body : nat -> St -> option St)
    (s : St) : option St :=
  match n with
  | 0 => Some s
  | S n' => s' <- body lo s ;; for_loop n' (S lo) body s'
  end.

(** ** The scalar type

    [Scalar] is a template parameter of both classes; the code only copies
    scalars and writes [Scalar(0)]. *)

Class ScalarZero (Scalar : Type) := { zero : Scalar }.

(** The content of storage that has been allocated and not yet written:
    [indeterminate k] is what cell [k] of such a buffer holds.  Eigen's size
    constructors do not write the coefficients; for a scalar type such as
    [double] they are whatever the memory held. *)
Class Uninit (Scalar : Type) := { indeterminate : nat -> Scalar }.

(** ** Eigen: the dense vector and matrix operations the header uses *)

Module Eigen.

Section Blocks.
Context {A : Type}.

(** [l] with the [n] cells from index [i] on replaced by [src]. *)
Definition splice (i n : nat) (l src : list A) : list A :=
  firstn i l ++ src ++ skipn (i + n) l.

(** [v.segment(i, n)] read. *)
Definition segment (i n : nat) (v : list A) : option (list A) :=
  if i + n <=? length v then Some (firstn n (skipn i v)) else None.

(** [v.head(n)] read. *)
Definition head (n : nat) (v : list A) : option (list A) :=
  segment 0 n v.

(** [v.tail(n)] read: the block starting at [size() - n]. *)
Definition tail (n : nat) (v : list A) : option (list A) :=
  if n <=? length v then segment (length v - n) n v else None.

(** [dst.segment(i, n) = src]: a block cannot be resized, so [src] must
    have exactly [n] entries. *)
Definition set_segment (i n : nat) (dst src : list A) : option (list A) :=
  if (i + n <=? length dst) && (length src =? n)
  then Some (splice i n dst src)
  else None.

(** [dst.head(n) = src]. *)
Definition set_head (n : nat) (dst src : list A) : option (list A) :=
  set_segment 0 n dst src.
End Blocks.

Section Dense.
Context {Scalar : Type}.

Definition VecX := list Scalar.

(** A dynamic matrix: its row count and its columns, left to right. *)
Record MatX := mkMat { rows : nat; coldata : list (list Scalar) }.

Definition cols (M : MatX) : nat := length (coldata M).

(** [VecXs::Zero(n)] and [MatXs::Zero(r, c)]. *)
Definition VecZero `{ScalarZero Scalar} (n : nat) : VecX := repeat zero n.
Definition Zero `{ScalarZero Scalar} (r c : nat) : MatX :=
  mkMat r (repeat (repeat zero r) c).

(** [VecXs v(n)] and [MatXs M(r, c)]: allocated, not initialised.  Cell
    [(i, j)] of a matrix is cell [i + j * r] of its storage. *)
Definition VecX_uninit `{Uninit Scalar} (n : nat) : VecX :=
  map indeterminate (seq 0 n).
Definition MatX_uninit `{Uninit Scalar} (r c : nat) : MatX :=
  mkMat r (map (fun j => map (fun i => indeterminate (i + j * r)) (seq 0 r))
               (seq 0 c)).

(** [M.middleCols(s, n)] and [M.leftCols(n)] read. *)
Definition middleCols (s n : nat) (M : MatX) : option MatX :=
  cs <- segment s n (coldata M) ;; Some (mkMat (rows M) cs).
Definition leftCols (n : nat) (M : MatX) : option MatX :=
  middleCols 0 n M.

(** [M.block(r0, c0, nr, nc) = src]: the block must lie inside [M] and
    [src] must be [nr] by [nc]. *)
Definition block_assign (r0 c0 nr nc : nat) (M src : MatX) : option MatX :=
  if (r0 + nr <=? rows M) && (c0 + nc <=? cols M)
     && (rows src =? nr) && (cols src =? nc)
  then Some (mkMat (rows M)
               (splice c0 nc (coldata M)
                  (map (fun ds => splice r0 nr (fst ds) (snd ds))
                       (combine (firstn nc (skipn c0 (coldata M)))
                                (coldata src)))))
  else None.

(** [M.middleCols(s, n) = src] and [M.leftCols(n) = src]. *)
Definition set_middleCols (s n : nat) (M src : MatX) : option MatX :=
  block_assign 0 s (rows M) n M src.
Definition set_leftCols (n : nat) (M src : MatX) : option MatX :=
  set_middleCols 0 n M src.

(** The comma initialiser behind [M << A, B, C;]: blocks are laid out left
    to right, a new block row is started when the current one is full, and
    the matrix must be exactly filled at the end. *)
Record CommaInitializer := mkComma {
  m_xpr : MatX;
  m_row : nat;
  m_col : nat;
  m_currentBlockRows : nat
}.

(** [M << other]. *)
Definition comma_first (xpr other : MatX) : option CommaInitializer :=
  xpr' <- block_assign 0 0 (rows other) (cols other) xpr other ;;
  Some (mkComma xpr' 0 (cols other) (rows other)).

(** [... , other]. *)
Definition comma_next (ci : CommaInitializer) (other : MatX)
    : option CommaInitializer :=
  ci1 <- (if (m_col ci =? cols (m_xpr ci))
             && (negb (cols other =? 0)
                 || negb (rows other =? m_currentBlockRows ci))
          then
            let r := m_row ci + m_currentBlockRows ci in
            if r + rows other <=? rows (m_xpr ci)
            then Some (mkComma (m_xpr ci) r 0 (rows other))
            else None
          else Some ci) ;;
  if (m_col ci1 + cols other <=? cols (m_xpr ci1))
     && (m_currentBlockRows ci1 =? rows other)
  then
    xpr' <- block_assign (m_row ci1) (m_col ci1) (rows other) (cols other)
              (m_xpr ci1) other ;;
    Some (mkComma xpr' (m_row ci1) (m_col ci1 + cols other)
            (m_currentBlockRows ci1))
  else None.

(** The end of the statement. *)
Definition comma_finished (ci : CommaInitializer) : option MatX :=
  if ((m_row ci + m_currentBlockRows ci =? rows (m_xpr ci))
      || (cols (m_xpr ci) =? 0))
     && (m_col ci =? cols (m_xpr ci))
  then Some (m_xpr ci)
  else None.
End Dense.

Arguments VecX : clear implicits.
Arguments MatX : clear implicits.
Arguments CommaInitializer : clear implicits.

End Eigen.

Import Eigen.

(** ** [ocs2::PinocchioStateInputMapping<Scalar>]: the interface both
    classes implement and the robot mapping is consumed through *)

Module PinocchioStateInputMapping.
Record t (Scalar : Type) := make {
  getPinocchioJointPosition : VecX Scalar -> option (VecX Scalar);
  getPinocchioJointVelocity :
    VecX Scalar -> VecX Scalar -> option (VecX Scalar);
  getPinocchioJointAcceleration :
    VecX Scalar -> VecX Scalar -> option (VecX Scalar);
  getOcs2Jacobian :
    VecX Scalar -> MatX Scalar -> MatX Scalar
    -> option (MatX Scalar * MatX Scalar)
}.
End PinocchioStateInputMapping.

(** ** Dimensions *)

(** Modelled from the spec: [upright_control/dimensions.h] is not part of
    the sources at hand.  [RobotDimensions] is the aggregate [{q, v, x, u}]
    of the generalized position count, the generalized velocity count, the
    state size and the input size, in the order [OBSTACLE_DIMENSIONS]
    initialises it. *)
Module RobotDimensions.
Record t := make { q : nat; v : nat; x : nat; u : nat }.
End RobotDimensions.

(** Modelled from the spec: [OptimizationDimensions] holds the robot's
    dimensions and the obstacle count [o]; its derived totals are
    [q() = robot.q + 3 o], [v() = robot.v + 3 o], [x() = robot.x + 9 o] and
    [u() = robot.u]. *)
Module OptimizationDimensions.
Record t := make { robot : RobotDimensions.t; o : nat }.
Definition q (d : t) : nat := RobotDimensions.q (robot d) + 3 * o d.
Definition v (d : t) : nat := RobotDimensions.v (robot d) + 3 * o d.
Definition x (d : t) : nat := RobotDimensions.x (robot d) + 9 * o d.
Definition u (d : t) : nat := RobotDimensions.u (robot d).
End OptimizationDimensions.

(** ** [TripleIntegratorPinocchioMapping<Scalar>] *)

Module TripleIntegratorPinocchioMapping.
Section Mapping.
Context {Scalar : Type} `{ScalarZero Scalar} `{Uninit Scalar}.
Variable dims_ : RobotDimensions.t.

Definition getPinocchioJointPosition (state : VecX Scalar)
    : option (VecX Scalar) :=
  head (RobotDimensions.q dims_) state.

Definition getPinocchioJointVelocity (state input : VecX Scalar)
    : option (VecX Scalar) :=
  segment (RobotDimensions.q dims_) (RobotDimensions.v dims_) state.

Definition getPinocchioJointAcceleration (state input : VecX Scalar)
    : option (VecX Scalar) :=
  tail (RobotDimensions.v dims_) state.

Definition getOcs2Jacobian (state : VecX Scalar) (Jq Jv : MatX Scalar)
    : option (MatX Scalar * MatX Scalar) :=
  let output_dim := rows Jq in
  let dfdx :=
    MatX_uninit output_dim (cols Jq + cols Jv + RobotDimensions.v dims_) in
  ci <- comma_first dfdx Jq ;;
  ci <- comma_next ci Jv ;;
  ci <- comma_next ci (Zero output_dim (RobotDimensions.v dims_)) ;;
  dfdx <- comma_finished ci ;;
  let dfdu := Zero output_dim (RobotDimensions.u dims_) in
  Some (dfdx, dfdu).

(** The object, seen through the interface. *)
Definition mapping : PinocchioStateInputMapping.t Scalar :=
  PinocchioStateInputMapping.make
    getPinocchioJointPosition getPinocchioJointVelocity
    getPinocchioJointAcceleration getOcs2Jacobian.
End Mapping.
End TripleIntegratorPinocchioMapping.

Definition OBSTACLE_DIMENSIONS : RobotDimensions.t :=
  RobotDimensions.make 3 3 9 0.

Definition OBSTACLE_PINOCCHIO_MAPPING {Scalar : Type}
    `{ScalarZero Scalar} `{Uninit Scalar}
    : PinocchioStateInputMapping.t Scalar :=
  TripleIntegratorPinocchioMapping.mapping OBSTACLE_DIMENSIONS.

(** ** [SystemPinocchioMapping<Mapping, Scalar>] *)

Module SystemPinocchioMapping.
Section Mapping.
Context {Scalar : Type} `{ScalarZero Scalar} `{Uninit Scalar}.

(** The template parameter [Mapping], through the constructor the class
    calls: [robot_mapping_(dims.robot)]. *)
Variable Mapping : RobotDimensions.t -> PinocchioStateInputMapping.t Scalar.
Variable dims_ : OptimizationDimensions.t.

Local Abbreviation robot := (OptimizationDimensions.robot dims_).
Local Abbreviation o := (OptimizationDimensions.o dims_).

Definition robot_mapping_ : PinocchioStateInputMapping.t Scalar :=
  Mapping robot.

Definition getPinocchioJointPosition (state : VecX Scalar)
    : option (VecX Scalar) :=
  let q_pin := VecX_uninit (OptimizationDimensions.q dims_) in
  x_robot <- head (RobotDimensions.x robot) state ;;
  q_robot <- PinocchioStateInputMapping.getPinocchioJointPosition
               robot_mapping_ x_robot ;;
  q_pin <- set_head (RobotDimensions.q robot) q_pin q_robot ;;
  for_loop o 0
    (fun i q_pin =>
       x_obs <- segment (RobotDimensions.x robot + i * 9) 9 state ;;
       q_obs <- PinocchioStateInputMapping.getPinocchioJointPosition
                  OBSTACLE_PINOCCHIO_MAPPING x_obs ;;
       set_segment (RobotDimensions.q robot + i * 3) 3 q_pin q_obs)
    q_pin.

Definition getPinocchioJointVelocity (state input : VecX Scalar)
    : option (VecX Scalar) :=
  let v_pin := VecX_uninit (OptimizationDimensions.v dims_) in
  let u_obs := VecZero 3 in
  x_robot <- head (RobotDimensions.x robot) state ;;
  u_robot <- head (RobotDimensions.u robot) input ;;
  v_robot <- PinocchioStateInputMapping.getPinocchioJointVelocity
               robot_mapping_ x_robot u_robot ;;
  v_pin <- set_head (RobotDimensions.v robot) v_pin v_robot ;;
  for_loop o 0
    (fun i v_pin =>
       x_obs <- segment (RobotDimensions.x robot + i * 9) 9 state ;;
       v_obs <- PinocchioStateInputMapping.getPinocchioJointVelocity
                  OBSTACLE_PINOCCHIO_MAPPING x_obs u_obs ;;
       set_segment (RobotDimensions.v robot + i * 3) 3 v_pin v_obs)
    v_pin.

Definition getPinocchioJointAcceleration (state input : VecX Scalar)
    : option (VecX Scalar) :=
  let a_pin := VecX_uninit (OptimizationDimensions.v dims_) in
  let u_obs := VecZero 3 in
  x_robot <- head (RobotDimensions.x robot) state ;;
  u_robot <- head (RobotDimensions.u robot) input ;;
  a_robot <- PinocchioStateInputMapping.getPinocchioJointAcceleration
               robot_mapping_ x_robot u_robot ;;
  a_pin <- set_head (RobotDimensions.v robot) a_pin a_robot ;;
  for_loop o 0
    (fun i a_pin =>
       x_obs <- segment (RobotDimensions.x robot + i * 9) 9 state ;;
       a_obs <- PinocchioStateInputMapping.getPinocchioJointAcceleration
                  OBSTACLE_PINOCCHIO_MAPPING x_obs u_obs ;;
       set_segment (RobotDimensions.v robot + i * 3) 3 a_pin a_obs)
    a_pin.

(** The two declarations that open [getOcs2Jacobian]:
    [MatXs dfdx(output_dim, dims_.x()); MatXs dfdu(output_dim, dims_.u());] *)
Definition allocate_jacobians (output_dim : nat)
    : MatX Scalar * MatX Scalar :=
  (MatX_uninit output_dim (OptimizationDimensions.x dims_),
   MatX_uninit output_dim (OptimizationDimensions.u dims_)).

Definition getOcs2Jacobian (state : VecX Scalar)
    (Jq_pin Jv_pin : MatX Scalar) : option (MatX Scalar * MatX Scalar) :=
  let output_dim := rows Jq_pin in
  let '(dfdx, dfdu) := allocate_jacobians output_dim in
  x_robot <- head (RobotDimensions.x robot) state ;;
  Jq_pin_robot <- leftCols (RobotDimensions.q robot) Jq_pin ;;
  Jv_pin_robot <- leftCols (RobotDimensions.v robot) Jv_pin ;;
  '(dfdx_robot, dfdu_robot) <- PinocchioStateInputMapping.getOcs2Jacobian
                                 robot_mapping_
                                 x_robot Jq_pin_robot Jv_pin_robot ;;
  dfdx <- set_leftCols (RobotDimensions.x robot) dfdx dfdx_robot ;;
  dfdu <- set_leftCols (RobotDimensions.u robot) dfdu dfdu_robot ;;
  dfdx <- for_loop o 0
            (fun i dfdx =>
               x_obs <- segment (RobotDimensions.x robot + i * 9) 9 state ;;
               Jq_pin_obs <- middleCols (RobotDimensions.q robot + i * 3) 3
                               Jq_pin ;;
               Jv_pin_obs <- middleCols (RobotDimensions.v robot + i * 3) 3
                               Jv_pin ;;
               '(dfdx_obs, _) <- PinocchioStateInputMapping.getOcs2Jacobian
                                   OBSTACLE_PINOCCHIO_MAPPING
                                   x_obs Jq_pin_obs Jv_pin_obs ;;
               set_middleCols (RobotDimensions.x robot + i * 9) 9
                 dfdx dfdx_obs)
            dfdx ;;
  Some (dfdx, dfdu).

(** The object, seen through the interface. *)
Definition mapping : PinocchioStateInputMapping.t Scalar :=
  PinocchioStateInputMapping.make
    getPinocchioJointPosition getPinocchioJointVelocity
    getPinocchioJointAcceleration getOcs2Jacobian.
End Mapping.
End SystemPinocchioMapping.

(** ** A concrete scalar type for running the code: integers *)

#[export] Instance Z_zero : ScalarZero Z := {| zero := 0%Z |}.

(** Fresh storage whose cell [k] holds [1000 + k]. *)
Definition stale : Uninit Z :=
  {| indeterminate := fun k => (1000 + Z.of_nat k)%Z |}.

(** Fresh storage that happens to hold zeros. *)
Definition zeroed : Uninit Z := {| indeterminate := fun _ => 0%Z |}.

(** A robot whose mapping is the triple-integrator one. *)
Definition integrator_robot
    : RobotDimensions.t -> PinocchioStateInputMapping.t Z :=
  fun dims => @TripleIntegratorPinocchioMapping.mapping Z Z_zero stale dims.

(** The scenario of the specification: a robot with [q = v = 1], [x = 2],
    [u = 1] and one obstacle. *)
Definition scenario_dims : OptimizationDimensions.t :=
  OptimizationDimensions.make (RobotDimensions.make 1 1 2 1) 1.

Definition scenario_state : VecX Z := [10; 20; 1; 2; 3; 4; 5; 6; 7; 8; 9]%Z.

(** A triple-integrator robot with one joint ([x = q + v + v = 3]), alone
    and with two obstacles. *)
Definition joint_dims : RobotDimensions.t := RobotDimensions.make 1 1 3 1.

Definition alone_dims : OptimizationDimensions.t :=
  OptimizationDimensions.make joint_dims 0.

Definition sample_dims : OptimizationDimensions.t :=
  OptimizationDimensions.make joint_dims 2.

Definition alone_state : VecX Z := [10; 20; 30]%Z.
Definition alone_Jq : MatX Z := mkMat 2 [[1; 2]]%Z.
Definition alone_Jv : MatX Z := mkMat 2 [[3; 4]]%Z.

Definition sample_state : VecX Z :=
  [10; 20; 30;
   101; 102; 103; 104; 105; 106; 107; 108; 109;
   201; 202; 203; 204; 205; 206; 207; 208; 209]%Z.

Definition sample_input : VecX Z := [5]%Z.

Definition sample_Jq : MatX Z :=
  mkMat 2 [[1; 11]; [2; 12]; [3; 13]; [4; 14]; [5; 15]; [6; 16]; [7; 17]]%Z.

Definition sample_Jv : MatX Z :=
  mkMat 2 [[21; 31]; [22; 32]; [23; 33]; [24; 34]; [25; 35]; [26; 36];
           [27; 37]]%Z.

Definition obstacle_Jq : MatX Z := mkMat 2 [[2; 12]; [3; 13]; [4; 14]]%Z.
Definition obstacle_Jv : MatX Z := mkMat 2 [[22; 32]; [23; 33]; [24; 34]]%Z.

(** ** Vocabulary of the specification *)

(** [[A | B]], the horizontal concatenation of two blocks. *)
Definition hcat {Scalar : Type} (A B : MatX Scalar) : MatX Scalar :=
  mkMat (rows A) (coldata A ++ coldata B).

(** The [dfdx] block that the obstacle mapping returns for obstacle [i]:
    its [getOcs2Jacobian] on the obstacle's nine state entries and its three
    columns of [Jq_pin] and of [Jv_pin], as the obstacle loop of
    [SystemPinocchioMapping::getOcs2Jacobian] calls it. *)
Definition obstacle_jacobian {Scalar : Type} `{ScalarZero Scalar}
    `{Uninit Scalar} (d : OptimizationDimensions.t) (state : VecX Scalar)
    (Jq_pin Jv_pin : MatX Scalar) (i : nat) : option (MatX Scalar) :=
  x_obs <- segment (RobotDimensions.x (OptimizationDimensions.robot d) + i * 9)
             9 state ;;
  Jq_pin_obs <- middleCols
                  (RobotDimensions.q (OptimizationDimensions.robot d) + i * 3)
                  3 Jq_pin ;;
  Jv_pin_obs <- middleCols
                  (RobotDimensions.v (OptimizationDimensions.robot d) + i * 3)
                  3 Jv_pin ;;
  '(dfdx_obs, _) <- PinocchioStateInputMapping.getOcs2Jacobian
                      OBSTACLE_PINOCCHIO_MAPPING x_obs Jq_pin_obs Jv_pin_obs ;;
  Some dfdx_obs.

(** The column blocks of [dfdx] that [SystemPinocchioMapping::getOcs2Jacobian]
    assigns, as (first column, width) and in program order: the robot block
    ([dfdx.leftCols(dims_.robot.x)]), then one block for each turn of the
    obstacle loop ([dfdx.middleCols(dims_.robot.x + i * 9, 9)]). *)
Definition dfdx_writes (d : OptimizationDimensions.t) : list (nat * nat) :=
  (0, RobotDimensions.x (OptimizationDimensions.robot d))
  :: map (fun i => (RobotDimensions.x (OptimizationDimensions.robot d) + i * 9, 9))
         (seq 0 (OptimizationDimensions.o d)).

Definition in_block (c : nat) (b : nat * nat) : bool :=
  (fst b <=? c) && (c <? fst b + snd b).



(** A matrix after a list of column-block assignments, each given by its
    block and the matrix assigned to it. *)
Fixpoint perform_writes {Scalar : Type} (M : MatX Scalar)
    (ws : list (nat * nat * MatX Scalar)) : option (MatX Scalar) :=
  match ws with
  | [] => Some M
  | (b, src) :: ws' =>
      M' <- set_middleCols (fst b) (snd b) M src ;; perform_writes M' ws'
  end.

(** The [k]-th block of width [w] behind the first [off] entries. *)
Definition block_at {A : Type} (off w k : nat) (l : list A) : list A :=
  firstn w (skipn (off + k * w) l).

Definition transpose (i j k : nat) : nat :=
  if k =? i then j else if k =? j then i else k.

(** [l], made of [off] leading entries, [n] blocks of width [w] and a rest,
    with blocks [i] and [j] exchanged. *)
Definition swap_blocks {A : Type} (off w n i j : nat) (l : list A) : list A :=
  firstn off l
  ++ concat (map (fun k => block_at off w (transpose i j k) l) (seq 0 n))
  ++ skipn (off + n * w) l.

(** The nine columns of the [dfdx] block of obstacle [i]: the three columns
    of [Jq_pin] and the three of [Jv_pin] that belong to the obstacle, and
    three zero columns. *)
Definition obstacle_columns {Scalar : Type} `{ScalarZero Scalar}
    (d : OptimizationDimensions.t) (Jq_pin Jv_pin : MatX Scalar) (i : nat)
    : list (list Scalar) :=
  block_at (RobotDimensions.q (OptimizationDimensions.robot d)) 3 i
    (coldata Jq_pin)
  ++ block_at (RobotDimensions.v (OptimizationDimensions.robot d)) 3 i
       (coldata Jv_pin)
  ++ repeat (repeat zero (rows Jq_pin)) 3.

(** Two optional results that fail together, or succeed with related
    values. *)
Definition option_rel {S T : Type} (R : S -> T -> Prop)
    (a : option S) (b : option T) : Prop :=
  match a, b with
  | Some s, Some t => R s t
  | None, None => True
  | _, _ => False
  end.

(** [columns_of r cs]: every column in [cs] has [r] entries. *)
Definition columns_of {Scalar : Type} (r : nat) (cs : list (list Scalar))
    : Prop :=
  Forall (fun c => length c = r) cs.

(** Two [r] by [total] matrices under construction that agree on their
    first [k] columns and whose other columns are still well-formed. *)
Definition agree_upto {Scalar : Type} (r total k : nat)
    (M1 M2 : MatX Scalar) : Prop :=
  rows M1 = r /\ rows M2 = r
  /\ cols M1 = total /\ cols M2 = total
  /\ firstn k (coldata M1) = firstn k (coldata M2)
  /\ columns_of r (skipn k (coldata M1))
  /\ columns_of r (skipn k (coldata M2)).

(** Short names for [d.robot.q], [d.robot.v], [d.robot.x], [d.robot.u] and
    [d.o]. *)
Local Abbreviation rq d := (RobotDimensions.q (OptimizationDimensions.robot d)).
Local Abbreviation rv d := (RobotDimensions.v (OptimizationDimensions.robot d)).
Local Abbreviation rx d := (RobotDimensions.x (OptimizationDimensions.robot d)).
Local Abbreviation ru d := (RobotDimensions.u (OptimizationDimensions.robot d)).
Local Abbreviation no d := (OptimizationDimensions.o d).

(** ** Vocabulary of the further properties *)

(** The entries of a list laid out like an optimization state (a
    triple-integrator robot with [x = q + v + v], then nine entries per
    obstacle) that belong to the positions, to the velocities and to the
    accelerations, robot first. *)
Definition position_entries {A : Type} (d : OptimizationDimensions.t)
    (l : list A) : list A :=
  firstn (rq d) l
  ++ concat (map (fun i => firstn 3 (block_at (rx d) 9 i l)) (seq 0 (no d))).

Definition velocity_entries {A : Type} (d : OptimizationDimensions.t)
    (l : list A) : list A :=
  firstn (rv d) (skipn (rq d) l)
  ++ concat (map (fun i => firstn 3 (skipn 3 (block_at (rx d) 9 i l)))
                 (seq 0 (no d))).

Definition acceleration_entries {A : Type} (d : OptimizationDimensions.t)
    (l : list A) : list A :=
  firstn (rv d) (skipn (rq d + rv d) l)
  ++ concat (map (fun i => firstn 3 (skipn 6 (block_at (rx d) 9 i l)))
                 (seq 0 (no d))).

(** The dimensions [d] with one more obstacle. *)
Definition add_obstacle (d : OptimizationDimensions.t)
    : OptimizationDimensions.t :=
  OptimizationDimensions.make (OptimizationDimensions.robot d) (S (no d)).

(** Data for running the further properties. *)
Definition wide_state : VecX Z := [1; 2; 3; 4; 5; 6; 7]%Z.
Definition wide_dims : RobotDimensions.t := RobotDimensions.make 2 2 6 1.
Definition tall_Jq : MatX Z := mkMat 2 [[1; 2]; [3; 4]]%Z.
Definition tall_Jv : MatX Z := mkMat 2 [[5; 6]]%Z.
Definition new_obstacle : VecX Z := [301; 302; 303; 304; 305; 306; 307; 308; 309]%Z.

(** * Properties *)

(** ** The loop *)

Lemma for_loop_ext {St : Type} (body1 body2 : nat -> St -> option St) :
  forall n lo s,
    (forall i t, lo <= i < lo + n -> body1 i t = body2 i t) ->
    for_loop n lo body1 s = for_loop n lo body2 s.
Proof.
  induction n as [|n IH]; intros lo s E; simpl; [reflexivity|].
  rewrite (E lo s) by lia.
  destruct (body2 lo s) as [s'|]; simpl; [|reflexivity].
  apply IH. intros i t Hi. apply E. lia.
Qed.

Lemma option_rel_eq {S : Type} (a b : option S) : option_rel eq a b -> a = b.
Proof.
  destruct a, b; simpl; intros E; congruence || contradiction.
Qed.

(** Two loops whose bodies keep a relation between their states, indexed by
    the loop counter, fail together or end in related states. *)
Lemma for_loop_sim {S T : Type} (R : nat -> S -> T -> Prop)
    (body1 : nat -> S -> option S) (body2 : nat -> T -> option T) :
  forall n k s t,
    R k s t ->
    (forall i s' t', k <= i < k + n -> R i s' t' ->
                     option_rel (R (Datatypes.S i)) (body1 i s') (body2 i t')) ->
    option_rel (R (k + n)) (for_loop n k body1 s) (for_loop n k body2 t).
Proof.
  induction n as [|n IH]; intros k s t HR Hstep; simpl.
  - now rewrite Nat.add_0_r.
  - pose proof (Hstep k s t ltac:(lia) HR) as Hk.
    destruct (body1 k s) as [s'|], (body2 k t) as [t'|]; simpl in *;
      try contradiction; [|exact I].
    replace (k + Datatypes.S n) with (Datatypes.S k + n) by lia.
    apply IH; [exact Hk|]. intros i s0 t0 Hi. apply Hstep. lia.
Qed.

(** ** Blocks of lists *)

Section BlockLemmas.
Context {A : Type}.
Implicit Types l src rest : list A.

Lemma segment_Some i n l :
  i + n <= length l -> segment i n l = Some (firstn n (skipn i l)).
Proof.
  intros Hle. unfold segment.
  destruct (Nat.leb_spec (i + n) (length l)); [reflexivity | lia].
Qed.

Lemma head_Some n l : n <= length l -> head n l = Some (firstn n l).
Proof.
  intros Hle. unfold head. now rewrite segment_Some by (simpl; lia).
Qed.

Lemma head_all l : head (length l) l = Some l.
Proof.
  unfold head. rewrite segment_Some by (simpl; lia).
  simpl. now rewrite firstn_all.
Qed.

(** Reading inside a prefix only looks at the prefix. *)
Lemma segment_firstn i n m l :
  i + n <= m -> segment i n (firstn m l) = segment i n l.
Proof.
  intros Hle. unfold segment. rewrite length_firstn.
  destruct (Nat.leb_spec (i + n) (length l)) as [Hl|Hl].
  - destruct (Nat.leb_spec (i + n) (Nat.min m (length l))); [|lia].
    f_equal. rewrite skipn_firstn_comm, firstn_firstn. f_equal. lia.
  - destruct (Nat.leb_spec (i + n) (Nat.min m (length l))); [lia|reflexivity].
Qed.

Lemma firstn_exact n l rest : length l = n -> firstn n (l ++ rest) = l.
Proof.
  intros <-. rewrite firstn_app, Nat.sub_diag, firstn_all. simpl.
  apply app_nil_r.
Qed.

Lemma skipn_exact n l rest : length l = n -> skipn n (l ++ rest) = rest.
Proof.
  intros <-. now rewrite skipn_app, Nat.sub_diag, skipn_all.
Qed.

Lemma length_splice i n l src :
  i + n <= length l -> length src = n -> length (splice i n l src) = length l.
Proof.
  intros Hle Hn. unfold splice.
  rewrite !length_app, length_firstn, length_skipn. lia.
Qed.

Lemma splice_app i n pre rest src :
  length pre = i -> length src = n ->
  splice i n (pre ++ rest) src = (pre ++ src) ++ skipn n rest.
Proof.
  intros Hi Hn. unfold splice.
  rewrite firstn_app, skipn_app, Hi, Nat.sub_diag.
  rewrite firstn_all2 by lia. rewrite (skipn_all2 pre) by lia.
  simpl. replace (i + n - i) with n by lia.
  now rewrite app_nil_r, <- app_assoc.
Qed.

Lemma splice_head n l src : splice 0 n l src = src ++ skipn n l.
Proof. reflexivity. Qed.

Lemma set_segment_Some i n l src :
  i + n <= length l -> length src = n ->
  set_segment i n l src = Some (splice i n l src).
Proof.
  intros Hle Hn. unfold set_segment.
  destruct (Nat.leb_spec (i + n) (length l)); [|lia].
  now rewrite (proj2 (Nat.eqb_eq _ _) Hn).
Qed.

Lemma set_segment_wrong_size i n l src :
  length src <> n -> set_segment i n l src = None.
Proof.
  intros Hn. unfold set_segment.
  rewrite (proj2 (Nat.eqb_neq _ _) Hn). now rewrite andb_false_r.
Qed.

Lemma firstn_splice i n l src :
  i + n <= length l -> length src = n ->
  firstn (i + n) (splice i n l src) = firstn i l ++ src.
Proof.
  intros Hle Hn. unfold splice. rewrite app_assoc.
  apply firstn_exact. rewrite length_app, length_firstn. lia.
Qed.

Lemma skipn_splice i n l src :
  i + n <= length l -> length src = n ->
  skipn (i + n) (splice i n l src) = skipn (i + n) l.
Proof.
  intros Hle Hn. unfold splice. rewrite app_assoc.
  apply skipn_exact. rewrite length_app, length_firstn. lia.
Qed.

(** Assigning the same block to two buffers that agree before it makes them
    agree up to its end, if the assignment is defined. *)
Lemma set_segment_sim i n total (b1 b2 src : list A) :
  length b1 = total -> length b2 = total ->
  firstn i b1 = firstn i b2 ->
  option_rel
    (fun c1 c2 =>
       length c1 = total /\ length c2 = total
       /\ firstn (i + n) c1 = firstn (i + n) c2)
    (set_segment i n b1 src) (set_segment i n b2 src).
Proof.
  intros H1 H2 Hpre. unfold set_segment. rewrite H1, H2.
  destruct (Nat.leb_spec (i + n) total) as [Hle|Hle]; [|exact I].
  destruct (Nat.eqb_spec (length src) n) as [Hn|Hn]; [|exact I].
  simpl. rewrite !length_splice, !firstn_splice by lia.
  now rewrite Hpre.
Qed.

Lemma concat_length_uniform (g : nat -> list A) w :
  forall n k,
    (forall i, k <= i < k + n -> length (g i) = w) ->
    length (concat (map g (seq k n))) = n * w.
Proof.
  induction n as [|n IH]; intros k Hg; simpl; [reflexivity|].
  rewrite length_app, Hg by lia. rewrite IH; [lia|].
  intros i Hi. apply Hg. lia.
Qed.

(** The loop that fills one block per turn leaves the blocks side by side
    behind what was there before. *)
Lemma for_loop_fill (body : nat -> list A -> option (list A))
    (g : nat -> list A) off w :
  forall n k buf,
    (forall i b, k <= i < k + n ->
                 body i b = set_segment (off + i * w) w b (g i)) ->
    (forall i, k <= i < k + n -> length (g i) = w) ->
    length buf = off + (k + n) * w ->
    for_loop n k body buf
    = Some (firstn (off + k * w) buf ++ concat (map g (seq k n))).
Proof.
  induction n as [|n IH]; intros k buf Hbody Hg Hlen; simpl.
  - rewrite app_nil_r, firstn_all2 by lia. reflexivity.
  - rewrite Hbody by lia.
    rewrite set_segment_Some by (try apply Hg; lia). simpl.
    rewrite IH.
    + f_equal.
      rewrite <- (firstn_skipn (off + k * w) buf) at 1.
      rewrite splice_app;
        [|rewrite length_firstn; lia | apply Hg; lia].
      rewrite firstn_exact
        by (rewrite length_app, length_firstn, Hg; lia).
      now rewrite <- app_assoc.
    + intros i b Hi. apply Hbody. lia.
    + intros i Hi. apply Hg. lia.
    + rewrite length_splice; [lia | lia | apply Hg; lia].
Qed.

End BlockLemmas.

(** ** Column blocks of matrices *)

Section ColumnLemmas.
Context {Scalar : Type}.
Implicit Types M src : MatX Scalar.
Implicit Types cs ds ss : list (list Scalar).

Lemma columns_of_firstn r n cs : columns_of r cs -> columns_of r (firstn n cs).
Proof.
  unfold columns_of. intros Hcs. revert n.
  induction Hcs as [|c cs Hc _ IH]; intros [|n]; simpl; constructor; auto.
Qed.

Lemma columns_of_skipn r n cs : columns_of r cs -> columns_of r (skipn n cs).
Proof.
  unfold columns_of. intros Hcs. revert n.
  induction Hcs as [|c cs Hc Hcs IH]; intros [|n]; simpl; auto.
Qed.

Lemma columns_of_uninit `{Uninit Scalar} r c :
  columns_of r (coldata (MatX_uninit r c)).
Proof.
  unfold columns_of. simpl. apply Forall_forall. intros col Hin.
  apply in_map_iff in Hin. destruct Hin as [j [<- _]].
  now rewrite length_map, length_seq.
Qed.

Lemma cols_uninit `{Uninit Scalar} r c : cols (MatX_uninit r c) = c.
Proof. unfold cols. simpl. now rewrite length_map, length_seq. Qed.

Lemma cols_Zero `{ScalarZero Scalar} r c : cols (Zero r c) = c.
Proof. unfold cols. simpl. apply repeat_length. Qed.

(** Writing whole columns replaces them. *)
Lemma overwrite_columns r ds :
  forall ss,
    length ds = length ss -> columns_of r ds ->
    map (fun p => splice 0 r (fst p) (snd p)) (combine ds ss) = ss.
Proof.
  induction ds as [|d ds IH]; intros [|s ss] Hlen Hds; simpl in *;
    try discriminate; [reflexivity|].
  inversion Hds as [|? ? Hd Hds']; subst.
  f_equal.
  - unfold splice. simpl. rewrite skipn_all2 by lia. apply app_nil_r.
  - apply IH; [lia | assumption].
Qed.

Lemma block_assign_columns M src s n :
  s + n <= cols M -> rows src = rows M -> cols src = n ->
  columns_of (rows M) (skipn s (coldata M)) ->
  block_assign 0 s (rows src) n M src
  = Some (mkMat (rows M) (splice s n (coldata M) (coldata src))).
Proof.
  intros Hle Hr Hc Hwf. unfold block_assign.
  rewrite Hr. simpl.
  destruct (Nat.leb_spec (rows M) (rows M)); [|lia].
  destruct (Nat.leb_spec (s + n) (cols M)); [|lia].
  rewrite Nat.eqb_refl, (proj2 (Nat.eqb_eq _ _) Hc). simpl.
  rewrite overwrite_columns; [reflexivity | | now apply columns_of_firstn].
  unfold cols in *. rewrite length_firstn, length_skipn. lia.
Qed.

Lemma set_middleCols_columns M src s n :
  s + n <= cols M -> rows src = rows M -> cols src = n ->
  columns_of (rows M) (skipn s (coldata M)) ->
  set_middleCols s n M src
  = Some (mkMat (rows M) (splice s n (coldata M) (coldata src))).
Proof.
  intros Hle Hr Hc Hwf. unfold set_middleCols.
  pose proof (@block_assign_columns M src s n Hle Hr Hc Hwf) as E.
  now rewrite Hr in E.
Qed.

Lemma middleCols_Some M s n :
  s + n <= cols M ->
  middleCols s n M = Some (mkMat (rows M) (firstn n (skipn s (coldata M)))).
Proof.
  intros Hle. unfold middleCols. now rewrite segment_Some.
Qed.

Lemma leftCols_all M : leftCols (cols M) M = Some M.
Proof.
  unfold leftCols. rewrite middleCols_Some by lia.
  simpl. unfold cols. rewrite firstn_all. now destruct M.
Qed.

(** The obstacle loop of [getOcs2Jacobian]: one block of [w] columns per
    turn, side by side behind the columns that were there before. *)
Lemma for_loop_fill_columns
    (body : nat -> MatX Scalar -> option (MatX Scalar))
    (g : nat -> list (list Scalar)) r off w :
  forall n k M,
    (forall i N, k <= i < k + n ->
                 body i N = set_middleCols (off + i * w) w N (mkMat r (g i))) ->
    (forall i, k <= i < k + n -> length (g i) = w) ->
    rows M = r ->
    cols M = off + (k + n) * w ->
    columns_of r (skipn (off + k * w) (coldata M)) ->
    for_loop n k body M
    = Some (mkMat r (firstn (off + k * w) (coldata M)
                     ++ concat (map g (seq k n)))).
Proof.
  induction n as [|n IH]; intros k M Hbody Hg Hr Hc Hwf; simpl.
  - rewrite app_nil_r, firstn_all2 by (unfold cols in Hc; lia).
    destruct M; simpl in *. now subst.
  - assert (Hgk : length (g k) = w) by (apply Hg; lia).
    rewrite Hbody by lia.
    rewrite set_middleCols_columns;
      [ | lia | simpl; lia | exact Hgk | now rewrite Hr ].
    simpl. unfold cols in Hc.
    assert (Hsp : splice (off + k * w) w (coldata M) (g k)
                  = (firstn (off + k * w) (coldata M) ++ g k)
                    ++ skipn (off + S k * w) (coldata M)).
    { rewrite <- (firstn_skipn (off + k * w) (coldata M)) at 1.
      rewrite splice_app by (try rewrite length_firstn; lia).
      f_equal. rewrite skipn_skipn. f_equal. lia. }
    assert (Hpre : length (firstn (off + k * w) (coldata M) ++ g k)
                   = off + S k * w)
      by (rewrite length_app, length_firstn, Hgk; lia).
    rewrite Hsp, IH.
    + cbn [coldata]. rewrite firstn_exact by exact Hpre.
      now rewrite <- app_assoc.
    + intros i N Hi. apply Hbody. lia.
    + intros i Hi. apply Hg. lia.
    + rewrite Hr. reflexivity.
    + unfold cols. cbn [coldata].
      rewrite length_app, Hpre, length_skipn. lia.
    + cbn [coldata]. rewrite skipn_exact by exact Hpre.
      replace (off + S k * w) with (w + (off + k * w)) by lia.
      rewrite <- skipn_skipn. now apply columns_of_skipn.
Qed.

(** When the columns from [s] on are still well-formed, assigning a column
    block is defined exactly when the block fits and the sizes agree. *)
Lemma set_middleCols_spec M src s n :
  columns_of (rows M) (skipn s (coldata M)) ->
  set_middleCols s n M src
  = if (s + n <=? cols M) && (rows src =? rows M) && (cols src =? n)
    then Some (mkMat (rows M) (splice s n (coldata M) (coldata src)))
    else None.
Proof.
  intros Hwf.
  destruct (Nat.leb_spec (s + n) (cols M)) as [Hle|Hle];
    destruct (Nat.eqb_spec (rows src) (rows M)) as [Hr|Hr];
    destruct (Nat.eqb_spec (cols src) n) as [Hc|Hc]; cbn [andb];
    try (now apply set_middleCols_columns);
    unfold set_middleCols, block_assign;
    try rewrite (proj2 (Nat.eqb_neq _ _) Hr);
    try rewrite (proj2 (Nat.eqb_neq _ _) Hc);
    try rewrite (proj2 (Nat.leb_gt _ _) Hle);
    now rewrite ?andb_false_r.
Qed.

(** Assigning the same column block to two matrices that agree before it
    makes them agree up to its end, if the assignment is defined. *)
Lemma set_middleCols_sim r total s n M1 M2 src :
  agree_upto r total s M1 M2 ->
  option_rel (agree_upto r total (s + n))
    (set_middleCols s n M1 src) (set_middleCols s n M2 src).
Proof.
  intros (Hr1 & Hr2 & Hc1 & Hc2 & Hpre & Hwf1 & Hwf2).
  rewrite !set_middleCols_spec by (rewrite ?Hr1, ?Hr2; assumption).
  rewrite Hr1, Hr2, Hc1, Hc2.
  destruct (Nat.leb_spec (s + n) total) as [Hle|Hle]; [|exact I].
  destruct (Nat.eqb_spec (rows src) r) as [Hr|Hr]; [|exact I].
  destruct (Nat.eqb_spec (cols src) n) as [Hc|Hc]; [|exact I].
  unfold cols in *. simpl. unfold agree_upto, cols. cbn [rows coldata].
  rewrite !length_splice, !firstn_splice, !skipn_splice by lia.
  rewrite Hpre. repeat split; try assumption.
  - replace (s + n) with (n + s) by lia. rewrite <- skipn_skipn.
    now apply columns_of_skipn.
  - replace (s + n) with (n + s) by lia. rewrite <- skipn_skipn.
    now apply columns_of_skipn.
Qed.

Lemma agree_upto_uninit (U1 U2 : Uninit Scalar) r total :
  agree_upto r total 0 (@MatX_uninit Scalar U1 r total)
    (@MatX_uninit Scalar U2 r total).
Proof.
  unfold agree_upto. rewrite !cols_uninit, !skipn_0.
  repeat split; apply columns_of_uninit.
Qed.

Lemma agree_upto_all r total M1 M2 : agree_upto r total total M1 M2 -> M1 = M2.
Proof.
  intros (Hr1 & Hr2 & Hc1 & Hc2 & Hpre & _). unfold cols in *.
  rewrite !firstn_all2 in Hpre by lia.
  destruct M1, M2. simpl in *. now subst.
Qed.

(** A loop of column-block assignments is the list of its assignments. *)
Lemma for_loop_writes
    (body : nat -> MatX Scalar -> option (MatX Scalar))
    (blk : nat -> nat * nat) (src : nat -> MatX Scalar) :
  forall n k M,
    (forall i N, k <= i < k + n ->
                 body i N = set_middleCols (fst (blk i)) (snd (blk i)) N (src i)) ->
    for_loop n k body M
    = perform_writes M (combine (map blk (seq k n)) (map src (seq k n))).
Proof.
  induction n as [|n IH]; intros k M Hbody; [reflexivity|].
  cbn [for_loop seq map combine perform_writes].
  rewrite Hbody by lia.
  destruct (set_middleCols _ _ M (src k)) as [M'|]; [|reflexivity].
  cbn [bind]. apply IH. intros i N Hi. apply Hbody. lia.
Qed.

Lemma Forall2_map_seq {B : Type} (P : nat -> B -> Prop) (f : nat -> B) :
  forall n k,
    (forall i, k <= i < k + n -> P i (f i)) ->
    Forall2 P (seq k n) (map f (seq k n)).
Proof.
  induction n as [|n IH]; intros k Hf; simpl; constructor.
  - apply Hf. lia.
  - apply IH. intros i Hi. apply Hf. lia.
Qed.

End ColumnLemmas.

(** ** The comma initialiser, along one block row *)

Section CommaLemmas.
Context {Scalar : Type}.
Implicit Types xpr other : MatX Scalar.
Implicit Types done rest cs : list (list Scalar).

Lemma comma_first_row xpr other :
  rows other = rows xpr -> cols other <= cols xpr ->
  columns_of (rows xpr) (coldata xpr) ->
  comma_first xpr other
  = Some (mkComma
            (mkMat (rows xpr)
               (coldata other ++ skipn (cols other) (coldata xpr)))
            0 (cols other) (rows xpr)).
Proof.
  intros Hr Hc Hwf. unfold comma_first.
  rewrite block_assign_columns; auto. simpl. rewrite Hr.
  change (coldata xpr) with ([] ++ coldata xpr) at 1.
  now rewrite splice_app.
Qed.

Lemma comma_next_stay r c done rest other :
  c = length done ->
  rows other = r -> cols other <= length rest -> rest <> [] ->
  columns_of r rest ->
  comma_next (mkComma (mkMat r (done ++ rest)) 0 c r) other
  = Some (mkComma
            (mkMat r ((done ++ coldata other) ++ skipn (cols other) rest))
            0 (c + cols other) r).
Proof.
  intros -> Hr Hc Hrest Hwf. unfold comma_next. cbn [m_col m_xpr m_row
    m_currentBlockRows rows].
  assert (Hfull : (length done =? cols (mkMat r (done ++ rest))) = false).
  { apply Nat.eqb_neq. unfold cols. cbn [coldata]. rewrite length_app.
    destruct rest; [congruence | simpl; lia]. }
  rewrite Hfull. cbn [andb bind m_col m_xpr m_row m_currentBlockRows].
  assert (Hfit : (length done + cols other <=? cols (mkMat r (done ++ rest)))
                 = true).
  { apply Nat.leb_le. unfold cols at 2. cbn [coldata].
    rewrite length_app. lia. }
  rewrite Hfit, Hr, Nat.eqb_refl. cbn [andb].
  rewrite <- Hr at 1.
  rewrite block_assign_columns; cbn [rows coldata].
  - simpl. now rewrite splice_app.
  - now apply Nat.leb_le.
  - exact Hr.
  - reflexivity.
  - now rewrite skipn_exact.
Qed.

Lemma comma_next_mismatch r c done rest other :
  c = length done -> rest <> [] -> rows other <> r ->
  comma_next (mkComma (mkMat r (done ++ rest)) 0 c r) other = None.
Proof.
  intros -> Hrest Hr. unfold comma_next.
  cbn [m_col m_xpr m_row m_currentBlockRows rows].
  assert (Hfull : (length done =? cols (mkMat r (done ++ rest))) = false).
  { apply Nat.eqb_neq. unfold cols. cbn [coldata]. rewrite length_app.
    destruct rest; [congruence | simpl; lia]. }
  rewrite Hfull. cbn [andb bind m_col m_xpr m_row m_currentBlockRows].
  rewrite (proj2 (Nat.eqb_neq r (rows other))) by congruence.
  now rewrite andb_false_r.
Qed.

Lemma comma_finished_row r c cs :
  c = length cs ->
  comma_finished (mkComma (mkMat r cs) 0 c r) = Some (mkMat r cs).
Proof.
  intros ->. unfold comma_finished, cols. simpl.
  now rewrite !Nat.eqb_refl.
Qed.

End CommaLemmas.

(** ** [TripleIntegratorPinocchioMapping] *)

Section TripleIntegratorLemmas.
Context {Scalar : Type} `{ScalarZero Scalar} `{Uninit Scalar}.

(** With a velocity block to append and blocks of equal height, the comma
    initialiser fills [dfdx] with [[Jq | Jv | 0]]. *)
Lemma triple_integrator_jacobian (dims : RobotDimensions.t)
    (state : VecX Scalar) (Jq Jv : MatX Scalar) :
  0 < RobotDimensions.v dims ->
  rows Jv = rows Jq ->
  TripleIntegratorPinocchioMapping.getOcs2Jacobian dims state Jq Jv
  = Some (hcat (hcat Jq Jv) (Zero (rows Jq) (RobotDimensions.v dims)),
          Zero (rows Jq) (RobotDimensions.u dims)).
Proof.
  intros Hv Hr. unfold TripleIntegratorPinocchioMapping.getOcs2Jacobian.
  set (r := rows Jq) in *. set (nv := RobotDimensions.v dims) in *.
  pose proof (columns_of_uninit r (cols Jq + cols Jv + nv)) as Hwf.
  pose proof (cols_uninit r (cols Jq + cols Jv + nv)) as Hc.
  set (dfdx := MatX_uninit r (cols Jq + cols Jv + nv)) in *.
  assert (Hrows : rows dfdx = r) by reflexivity.
  rewrite comma_first_row; [ | now rewrite Hrows | lia | now rewrite Hrows ].
  cbn [bind]. rewrite Hrows.
  assert (Hlen1 : length (skipn (cols Jq) (coldata dfdx)) = cols Jv + nv)
    by (rewrite length_skipn; unfold cols in *; lia).
  rewrite comma_next_stay;
    [ | reflexivity | exact Hr | lia
      | intros E; rewrite E in Hlen1; simpl in Hlen1; lia
      | now apply columns_of_skipn ].
  cbn [bind].
  assert (Hlen2 : length (skipn (cols Jv) (skipn (cols Jq) (coldata dfdx)))
                  = nv)
    by (rewrite length_skipn; lia).
  rewrite comma_next_stay;
    [ | unfold cols; now rewrite length_app | reflexivity
      | rewrite cols_Zero; lia
      | intros E; rewrite E in Hlen2; simpl in Hlen2; lia
      | now apply columns_of_skipn, columns_of_skipn ].
  cbn [bind]. rewrite cols_Zero.
  rewrite (skipn_all2 (n := nv)) by lia. rewrite app_nil_r.
  rewrite comma_finished_row.
  - reflexivity.
  - unfold cols. rewrite !length_app. simpl. now rewrite repeat_length.
Qed.

(** The obstacle mapping on a 9-entry state. *)
Lemma obstacle_position (x_obs : VecX Scalar) :
  length x_obs = 9 ->
  PinocchioStateInputMapping.getPinocchioJointPosition
    OBSTACLE_PINOCCHIO_MAPPING x_obs
  = Some (firstn 3 x_obs).
Proof.
  intros Hlen. simpl.
  unfold TripleIntegratorPinocchioMapping.getPinocchioJointPosition, head.
  simpl. now rewrite segment_Some by lia.
Qed.

Lemma obstacle_velocity (x_obs u_obs : VecX Scalar) :
  length x_obs = 9 ->
  PinocchioStateInputMapping.getPinocchioJointVelocity
    OBSTACLE_PINOCCHIO_MAPPING x_obs u_obs
  = Some (firstn 3 (skipn 3 x_obs)).
Proof.
  intros Hlen. simpl.
  unfold TripleIntegratorPinocchioMapping.getPinocchioJointVelocity.
  simpl. now rewrite segment_Some by lia.
Qed.

Lemma obstacle_acceleration (x_obs u_obs : VecX Scalar) :
  length x_obs = 9 ->
  PinocchioStateInputMapping.getPinocchioJointAcceleration
    OBSTACLE_PINOCCHIO_MAPPING x_obs u_obs
  = Some (firstn 3 (skipn 6 x_obs)).
Proof.
  intros Hlen. simpl.
  unfold TripleIntegratorPinocchioMapping.getPinocchioJointAcceleration, tail.
  simpl RobotDimensions.v. rewrite Hlen. simpl.
  now rewrite segment_Some by lia.
Qed.

End TripleIntegratorLemmas.

(** ** [SystemPinocchioMapping]: the layout of its results *)

Section SystemLemmas.
Context {Scalar : Type} `{ScalarZero Scalar} `{Uninit Scalar}.
Variable Mapping : RobotDimensions.t -> PinocchioStateInputMapping.t Scalar.
Variable d : OptimizationDimensions.t.
Implicit Types state input : VecX Scalar.
Implicit Types Jq_pin Jv_pin : MatX Scalar.

Lemma obstacle_state_Some state i :
  length state = OptimizationDimensions.x d -> i < no d ->
  segment (rx d + i * 9) 9 state = Some (block_at (rx d) 9 i state)
  /\ length (block_at (rx d) 9 i state) = 9.
Proof.
  unfold OptimizationDimensions.x, block_at. intros Hlen Hi.
  rewrite segment_Some by lia. split; [reflexivity|].
  rewrite length_firstn, length_skipn. lia.
Qed.

(** The robot write followed by the obstacle loop, on a fresh vector of
    [wq + 3 o] entries. *)
Lemma assemble_vector (wq : nat)
    (body : nat -> VecX Scalar -> option (VecX Scalar))
    (g : nat -> VecX Scalar) (r_out : VecX Scalar) :
  (forall i b, i < no d -> body i b = set_segment (wq + i * 3) 3 b (g i)) ->
  (forall i, i < no d -> length (g i) = 3) ->
  (v_pin <- set_head wq (VecX_uninit (wq + 3 * no d)) r_out ;;
   for_loop (no d) 0 body v_pin)
  = if length r_out =? wq
    then Some (r_out ++ concat (map g (seq 0 (no d))))
    else None.
Proof.
  intros Hbody Hg.
  assert (Hbuf : length (VecX_uninit (wq + 3 * no d)) = wq + 3 * no d)
    by (unfold VecX_uninit; now rewrite length_map, length_seq).
  unfold set_head.
  destruct (Nat.eqb_spec (length r_out) wq) as [Hr|Hr].
  - rewrite set_segment_Some by (rewrite ?Hbuf; lia). cbn [bind].
    rewrite for_loop_fill with (off := wq) (w := 3) (g := g).
    + f_equal. f_equal. rewrite splice_head.
      replace (wq + 0 * 3) with wq by lia. now apply firstn_exact.
    + intros i b Hi. apply Hbody. lia.
    + intros i Hi. apply Hg. lia.
    + rewrite length_splice by (rewrite ?Hbuf; lia). lia.
  - now rewrite set_segment_wrong_size.
Qed.

Lemma getPinocchioJointPosition_layout state :
  length state = OptimizationDimensions.x d ->
  SystemPinocchioMapping.getPinocchioJointPosition Mapping d state
  = q_robot <- PinocchioStateInputMapping.getPinocchioJointPosition
                 (Mapping (OptimizationDimensions.robot d))
                 (firstn (rx d) state) ;;
    if length q_robot =? rq d
    then Some (q_robot
               ++ concat (map (fun i => firstn 3 (block_at (rx d) 9 i state))
                              (seq 0 (no d))))
    else None.
Proof.
  intros Hlen. unfold SystemPinocchioMapping.getPinocchioJointPosition.
  rewrite head_Some by (unfold OptimizationDimensions.x in Hlen; lia).
  cbn [bind]. unfold SystemPinocchioMapping.robot_mapping_.
  destruct (PinocchioStateInputMapping.getPinocchioJointPosition _ _)
    as [q_robot|]; [|reflexivity].
  cbn [bind]. apply assemble_vector.
  - intros i b Hi. destruct (obstacle_state_Some state Hlen Hi) as [-> Hb].
    cbn [bind]. now rewrite obstacle_position.
  - intros i Hi. destruct (obstacle_state_Some state Hlen Hi) as [_ Hb].
    rewrite length_firstn. lia.
Qed.

Lemma getPinocchioJointVelocity_layout state input :
  length state = OptimizationDimensions.x d ->
  length input = OptimizationDimensions.u d ->
  SystemPinocchioMapping.getPinocchioJointVelocity Mapping d state input
  = v_robot <- PinocchioStateInputMapping.getPinocchioJointVelocity
                 (Mapping (OptimizationDimensions.robot d))
                 (firstn (rx d) state) input ;;
    if length v_robot =? rv d
    then Some (v_robot
               ++ concat (map (fun i =>
                                 firstn 3 (skipn 3 (block_at (rx d) 9 i state)))
                              (seq 0 (no d))))
    else None.
Proof.
  intros Hlen Hin. unfold SystemPinocchioMapping.getPinocchioJointVelocity.
  rewrite head_Some by (unfold OptimizationDimensions.x in Hlen; lia).
  cbn [bind]. unfold OptimizationDimensions.u in Hin.
  rewrite <- Hin at 1. rewrite head_all. cbn [bind].
  unfold SystemPinocchioMapping.robot_mapping_.
  destruct (PinocchioStateInputMapping.getPinocchioJointVelocity _ _ _)
    as [v_robot|]; [|reflexivity].
  cbn [bind]. apply assemble_vector.
  - intros i b Hi. destruct (obstacle_state_Some state Hlen Hi) as [-> Hb].
    cbn [bind]. now rewrite obstacle_velocity.
  - intros i Hi. destruct (obstacle_state_Some state Hlen Hi) as [_ Hb].
    rewrite length_firstn, length_skipn. lia.
Qed.

Lemma getPinocchioJointAcceleration_layout state input :
  length state = OptimizationDimensions.x d ->
  length input = OptimizationDimensions.u d ->
  SystemPinocchioMapping.getPinocchioJointAcceleration Mapping d state input
  = a_robot <- PinocchioStateInputMapping.getPinocchioJointAcceleration
                 (Mapping (OptimizationDimensions.robot d))
                 (firstn (rx d) state) input ;;
    if length a_robot =? rv d
    then Some (a_robot
               ++ concat (map (fun i =>
                                 firstn 3 (skipn 6 (block_at (rx d) 9 i state)))
                              (seq 0 (no d))))
    else None.
Proof.
  intros Hlen Hin.
  unfold SystemPinocchioMapping.getPinocchioJointAcceleration.
  rewrite head_Some by (unfold OptimizationDimensions.x in Hlen; lia).
  cbn [bind]. unfold OptimizationDimensions.u in Hin.
  rewrite <- Hin at 1. rewrite head_all. cbn [bind].
  unfold SystemPinocchioMapping.robot_mapping_.
  destruct (PinocchioStateInputMapping.getPinocchioJointAcceleration _ _ _)
    as [a_robot|]; [|reflexivity].
  cbn [bind]. apply assemble_vector.
  - intros i b Hi. destruct (obstacle_state_Some state Hlen Hi) as [-> Hb].
    cbn [bind]. now rewrite obstacle_acceleration.
  - intros i Hi. destruct (obstacle_state_Some state Hlen Hi) as [_ Hb].
    rewrite length_firstn, length_skipn. lia.
Qed.

End SystemLemmas.

Section SystemJacobianLemmas.
Context {Scalar : Type} `{ScalarZero Scalar} `{Uninit Scalar}.
Variable Mapping : RobotDimensions.t -> PinocchioStateInputMapping.t Scalar.
Variable d : OptimizationDimensions.t.
Implicit Types state : VecX Scalar.
Implicit Types Jq_pin Jv_pin dfdx_robot dfdu_robot : MatX Scalar.

(** One turn of the obstacle loop, call by call. *)
Lemma obstacle_call state Jq_pin Jv_pin i :
  length state = OptimizationDimensions.x d ->
  cols Jq_pin = OptimizationDimensions.q d ->
  cols Jv_pin = OptimizationDimensions.v d ->
  rows Jv_pin = rows Jq_pin ->
  i < no d ->
  segment (rx d + i * 9) 9 state = Some (block_at (rx d) 9 i state)
  /\ middleCols (rq d + i * 3) 3 Jq_pin
     = Some (mkMat (rows Jq_pin) (block_at (rq d) 3 i (coldata Jq_pin)))
  /\ middleCols (rv d + i * 3) 3 Jv_pin
     = Some (mkMat (rows Jv_pin) (block_at (rv d) 3 i (coldata Jv_pin)))
  /\ PinocchioStateInputMapping.getOcs2Jacobian OBSTACLE_PINOCCHIO_MAPPING
       (block_at (rx d) 9 i state)
       (mkMat (rows Jq_pin) (block_at (rq d) 3 i (coldata Jq_pin)))
       (mkMat (rows Jv_pin) (block_at (rv d) 3 i (coldata Jv_pin)))
     = Some (mkMat (rows Jq_pin) (obstacle_columns d Jq_pin Jv_pin i),
             Zero (rows Jq_pin) 0)
  /\ length (obstacle_columns d Jq_pin Jv_pin i) = 9.
Proof.
  intros Hlen Hq Hv Hr Hi.
  unfold OptimizationDimensions.q in Hq. unfold OptimizationDimensions.v in Hv.
  destruct (obstacle_state_Some d state Hlen Hi) as [Hseg _].
  repeat split.
  - exact Hseg.
  - now rewrite middleCols_Some by lia.
  - now rewrite middleCols_Some by lia.
  - cbn [PinocchioStateInputMapping.getOcs2Jacobian OBSTACLE_PINOCCHIO_MAPPING
         TripleIntegratorPinocchioMapping.mapping].
    rewrite triple_integrator_jacobian by (simpl; lia).
    unfold hcat, Zero, obstacle_columns.
    cbn [rows coldata RobotDimensions.v RobotDimensions.u OBSTACLE_DIMENSIONS].
    now rewrite <- app_assoc.
  - unfold obstacle_columns, block_at, cols in *.
    rewrite !length_app, !length_firstn, !length_skipn, repeat_length. lia.
Qed.

Lemma obstacle_jacobian_Some state Jq_pin Jv_pin i :
  length state = OptimizationDimensions.x d ->
  cols Jq_pin = OptimizationDimensions.q d ->
  cols Jv_pin = OptimizationDimensions.v d ->
  rows Jv_pin = rows Jq_pin ->
  i < no d ->
  obstacle_jacobian d state Jq_pin Jv_pin i
  = Some (mkMat (rows Jq_pin) (obstacle_columns d Jq_pin Jv_pin i))
  /\ length (obstacle_columns d Jq_pin Jv_pin i) = 9.
Proof.
  intros Hlen Hq Hv Hr Hi.
  destruct (obstacle_call state Jq_pin Jv_pin Hlen Hq Hv Hr Hi)
    as (Hs & HJq & HJv & Hcall & Hcols).
  split; [|exact Hcols].
  unfold obstacle_jacobian.
  rewrite Hs. cbn [bind]. rewrite HJq. cbn [bind]. rewrite HJv. cbn [bind].
  now rewrite Hcall.
Qed.

(** The assignments to [dfdx], performed on the fresh storage. *)
Lemma perform_dfdx_writes state Jq_pin Jv_pin dfdx_robot :
  length state = OptimizationDimensions.x d ->
  cols Jq_pin = OptimizationDimensions.q d ->
  cols Jv_pin = OptimizationDimensions.v d ->
  (0 < no d -> rows Jv_pin = rows Jq_pin) ->
  rows dfdx_robot = rows Jq_pin -> cols dfdx_robot = rx d ->
  perform_writes (MatX_uninit (rows Jq_pin) (OptimizationDimensions.x d))
    (combine (dfdx_writes d)
       (dfdx_robot
        :: map (fun i => mkMat (rows Jq_pin)
                           (obstacle_columns d Jq_pin Jv_pin i))
               (seq 0 (no d))))
  = Some (mkMat (rows Jq_pin)
            (coldata dfdx_robot
             ++ concat (map (obstacle_columns d Jq_pin Jv_pin)
                            (seq 0 (no d))))).
Proof.
  intros Hlen Hq Hv Hr Hxr Hxc.
  set (r := rows Jq_pin) in *.
  pose proof (columns_of_uninit r (OptimizationDimensions.x d)) as Hwfx.
  pose proof (cols_uninit r (OptimizationDimensions.x d)) as Hcx.
  set (dfdx := MatX_uninit r (OptimizationDimensions.x d)) in *.
  assert (Hrx : rows dfdx = r) by reflexivity.
  unfold OptimizationDimensions.x in Hcx.
  unfold dfdx_writes. cbn [combine perform_writes fst snd].
  rewrite (@set_middleCols_columns _ dfdx dfdx_robot 0 (rx d));
    [ | lia | now rewrite Hrx | assumption
      | rewrite skipn_0; now rewrite Hrx ].
  cbn [bind]. rewrite splice_head, Hrx.
  rewrite <- for_loop_writes
    with (body := fun i N =>
                    set_middleCols (rx d + i * 9) 9 N
                      (mkMat r (obstacle_columns d Jq_pin Jv_pin i)))
    by reflexivity.
  rewrite for_loop_fill_columns
    with (r := r) (off := rx d) (w := 9)
         (g := obstacle_columns d Jq_pin Jv_pin).
  - cbn [coldata]. do 3 f_equal.
    replace (rx d + 0 * 9) with (rx d) by lia. now apply firstn_exact.
  - reflexivity.
  - intros i [_ Hi]. simpl in Hi.
    assert (Hr' : rows Jv_pin = rows Jq_pin) by (apply Hr; lia).
    now destruct (obstacle_call state Jq_pin Jv_pin Hlen Hq Hv Hr' Hi)
      as (_ & _ & _ & _ & Hcols).
  - reflexivity.
  - unfold cols in *. cbn [coldata].
    rewrite length_app, length_skipn. lia.
  - cbn [coldata]. replace (rx d + 0 * 9) with (rx d) by lia.
    rewrite skipn_exact by exact Hxc. now apply columns_of_skipn.
Qed.

(** On arguments of the combined sizes, and a robot mapping that answers
    with blocks of the robot's sizes, [getOcs2Jacobian] returns the robot's
    [dfdx] followed by one 9-column block per obstacle, and the robot's
    [dfdu]. *)
Lemma getOcs2Jacobian_layout state Jq_pin Jv_pin dfdx_robot dfdu_robot :
  length state = OptimizationDimensions.x d ->
  cols Jq_pin = OptimizationDimensions.q d ->
  cols Jv_pin = OptimizationDimensions.v d ->
  (0 < no d -> rows Jv_pin = rows Jq_pin) ->
  PinocchioStateInputMapping.getOcs2Jacobian
    (Mapping (OptimizationDimensions.robot d))
    (firstn (rx d) state)
    (mkMat (rows Jq_pin) (firstn (rq d) (coldata Jq_pin)))
    (mkMat (rows Jv_pin) (firstn (rv d) (coldata Jv_pin)))
  = Some (dfdx_robot, dfdu_robot) ->
  rows dfdx_robot = rows Jq_pin -> cols dfdx_robot = rx d ->
  rows dfdu_robot = rows Jq_pin -> cols dfdu_robot = ru d ->
  SystemPinocchioMapping.getOcs2Jacobian Mapping d state Jq_pin Jv_pin
  = Some (mkMat (rows Jq_pin)
            (coldata dfdx_robot
             ++ concat (map (obstacle_columns d Jq_pin Jv_pin)
                            (seq 0 (no d)))),
          dfdu_robot).
Proof.
  intros Hlen Hq Hv Hr Hrobot Hxr Hxc Hur Huc.
  pose proof Hlen as Hlen0.
  unfold SystemPinocchioMapping.getOcs2Jacobian,
    SystemPinocchioMapping.allocate_jacobians.
  unfold OptimizationDimensions.x in Hlen.
  rewrite head_Some by lia. cbn [bind].
  unfold leftCols.
  rewrite !middleCols_Some
    by (unfold OptimizationDimensions.q, OptimizationDimensions.v in *; lia).
  cbn [bind]. rewrite !skipn_0.
  unfold SystemPinocchioMapping.robot_mapping_. rewrite Hrobot. cbn [bind].
  set (r := rows Jq_pin) in *.
  pose proof (columns_of_uninit r (OptimizationDimensions.x d)) as Hwfx.
  pose proof (cols_uninit r (OptimizationDimensions.x d)) as Hcx.
  pose proof (columns_of_uninit r (OptimizationDimensions.u d)) as Hwfu.
  pose proof (cols_uninit r (OptimizationDimensions.u d)) as Hcu.
  set (dfdx := MatX_uninit r (OptimizationDimensions.x d)) in *.
  set (dfdu := MatX_uninit r (OptimizationDimensions.u d)) in *.
  assert (Hrx : rows dfdx = r) by reflexivity.
  assert (Hru : rows dfdu = r) by reflexivity.
  unfold OptimizationDimensions.x in Hcx.
  unfold OptimizationDimensions.u in Hcu.
  unfold set_leftCols.
  rewrite (@set_middleCols_columns _ dfdx dfdx_robot 0 (rx d));
    [ | lia | now rewrite Hrx | assumption
      | rewrite skipn_0; now rewrite Hrx ].
  cbn [bind].
  rewrite (@set_middleCols_columns _ dfdu dfdu_robot 0 (ru d));
    [ | lia | now rewrite Hru | assumption
      | rewrite skipn_0; now rewrite Hru ].
  cbn [bind]. rewrite !splice_head, Hrx, Hru.
  rewrite for_loop_fill_columns
    with (r := r) (off := rx d) (w := 9)
         (g := obstacle_columns d Jq_pin Jv_pin).
  - cbn [bind coldata]. f_equal. f_equal.
    + f_equal. f_equal. replace (rx d + 0 * 9) with (rx d) by lia.
      now apply firstn_exact.
    + unfold cols in *. rewrite skipn_all2 by lia. rewrite app_nil_r.
      destruct dfdu_robot as [ur uc]. simpl in *. now subst.
  - intros i N [_ Hi]. simpl in Hi.
    assert (Hr' : rows Jv_pin = rows Jq_pin) by (apply Hr; lia).
    destruct (obstacle_call state Jq_pin Jv_pin Hlen0 Hq Hv Hr' Hi)
      as (Hs & HJq & HJv & Hcall & _).
    rewrite Hs. cbn [bind]. rewrite HJq. cbn [bind]. rewrite HJv. cbn [bind].
    now rewrite Hcall.
  - intros i [_ Hi]. simpl in Hi.
    assert (Hr' : rows Jv_pin = rows Jq_pin) by (apply Hr; lia).
    now destruct (obstacle_call state Jq_pin Jv_pin Hlen0 Hq Hv Hr' Hi)
      as (_ & _ & _ & _ & Hcols).
  - reflexivity.
  - unfold cols in *. cbn [coldata].
    rewrite length_app, length_skipn. lia.
  - cbn [coldata]. replace (rx d + 0 * 9) with (rx d) by lia.
    rewrite skipn_exact by exact Hxc. now apply columns_of_skipn.
Qed.

End SystemJacobianLemmas.

(** ** Blocks of a vector laid out as a prefix and equal-width blocks *)

Section SwapLemmas.
Context {A : Type}.
Implicit Types l pre post : list A.

Lemma transpose_lt n i j k : i < n -> j < n -> k < n -> transpose i j k < n.
Proof.
  intros Hi Hj Hk. unfold transpose.
  destruct (k =? i); [assumption|]. now destruct (k =? j).
Qed.

Lemma block_width (w n t : nat) : t < n -> t * w + w <= n * w.
Proof.
  intros Ht.
  replace (t * w + w) with (S t * w) by (simpl; lia).
  apply Nat.mul_le_mono_r. lia.
Qed.

Lemma length_block_at off w n k l :
  length l = off + n * w -> k < n -> length (block_at off w k l) = w.
Proof.
  intros Hlen Hk. unfold block_at.
  pose proof (block_width w Hk).
  rewrite length_firstn, length_skipn. lia.
Qed.

Lemma skipn_concat_uniform (g : nat -> list A) w :
  forall n a k,
    (forall i, a <= i < a + n -> length (g i) = w) ->
    k <= n ->
    skipn (k * w) (concat (map g (seq a n)))
    = concat (map g (seq (a + k) (n - k))).
Proof.
  induction n as [|n IH]; intros a [|k] Hg Hk; try lia.
  - reflexivity.
  - now rewrite Nat.add_0_r.
  - cbn [seq map concat Nat.sub].
    replace (S k * w) with (k * w + w) by (simpl; lia).
    rewrite <- skipn_skipn, skipn_exact by (apply Hg; lia).
    rewrite IH; [ | intros i Hi; apply Hg; lia | lia ].
    now replace (S a + k) with (a + S k) by lia.
Qed.

Lemma block_at_concat (g : nat -> list A) off w n k pre post :
  length pre = off ->
  (forall i, i < n -> length (g i) = w) ->
  k < n ->
  block_at off w k (pre ++ concat (map g (seq 0 n)) ++ post) = g k.
Proof.
  intros Hpre Hg Hk. unfold block_at.
  replace (off + k * w) with (k * w + off) by lia.
  rewrite <- skipn_skipn, skipn_exact by exact Hpre.
  assert (Hlen : length (concat (map g (seq 0 n))) = n * w)
    by (apply concat_length_uniform; intros i Hi; apply Hg; lia).
  pose proof (block_width w Hk) as Hkw.
  rewrite skipn_app, Hlen.
  replace (k * w - n * w) with 0 by lia. rewrite skipn_0.
  rewrite skipn_concat_uniform; [ | intros i Hi; apply Hg; lia | lia ].
  replace (n - k) with (S (n - k - 1)) by lia.
  cbn [seq map concat plus]. rewrite <- app_assoc.
  apply firstn_exact, Hg, Hk.
Qed.

(** The three facts that say [swap_blocks] exchanges blocks [i] and [j] and
    nothing else. *)
Lemma swap_blocks_length off w n i j l :
  length l = off + n * w -> i < n -> j < n ->
  length (swap_blocks off w n i j l) = length l.
Proof.
  intros Hlen Hi Hj. unfold swap_blocks.
  rewrite !length_app, length_firstn, length_skipn.
  rewrite concat_length_uniform with (w := w); [lia|].
  intros k Hk. apply length_block_at with (n := n); [assumption|].
  apply transpose_lt; lia.
Qed.

Lemma swap_blocks_prefix off w n i j l :
  off <= length l ->
  firstn off (swap_blocks off w n i j l) = firstn off l.
Proof.
  intros Hlen. unfold swap_blocks. apply firstn_exact.
  rewrite length_firstn. lia.
Qed.

Lemma swap_blocks_block off w n i j k l :
  length l = off + n * w -> i < n -> j < n -> k < n ->
  block_at off w k (swap_blocks off w n i j l)
  = block_at off w (transpose i j k) l.
Proof.
  intros Hlen Hi Hj Hk. unfold swap_blocks.
  apply block_at_concat
    with (g := fun k => block_at off w (transpose i j k) l); auto.
  - rewrite length_firstn. lia.
  - intros t Ht. apply length_block_at with (n := n); [assumption|].
    now apply transpose_lt.
Qed.

(** Exchanging blocks in a vector that is given block by block. *)
Lemma swap_blocks_layout (g : nat -> list A) off w n i j pre :
  length pre = off ->
  (forall k, k < n -> length (g k) = w) ->
  i < n -> j < n ->
  swap_blocks off w n i j (pre ++ concat (map g (seq 0 n)))
  = pre ++ concat (map (fun k => g (transpose i j k)) (seq 0 n)).
Proof.
  intros Hpre Hg Hi Hj. unfold swap_blocks.
  assert (Hlen : length (concat (map g (seq 0 n))) = n * w)
    by (apply concat_length_uniform; intros k Hk; apply Hg; lia).
  rewrite firstn_exact by exact Hpre.
  rewrite skipn_all2 by (rewrite length_app; lia).
  rewrite app_nil_r. f_equal. f_equal.
  apply map_ext_in. intros k Hk. apply in_seq in Hk.
  rewrite <- (app_nil_r (concat (map g (seq 0 n)))).
  apply block_at_concat; auto. apply transpose_lt; lia.
Qed.

End SwapLemmas.

Example swap_blocks_sample :
  swap_blocks 3 2 3 0 2 [1; 2; 3; 40; 41; 50; 51; 60; 61; 7]
  = [1; 2; 3; 60; 61; 50; 51; 40; 41; 7].
Proof. reflexivity. Qed.

(** ** [SystemPinocchioMapping]: what it reads of its arguments *)

Section SystemPrefixLemmas.
Context {Scalar : Type} `{ScalarZero Scalar} `{Uninit Scalar}.
Variable Mapping : RobotDimensions.t -> PinocchioStateInputMapping.t Scalar.
Variable d : OptimizationDimensions.t.
Implicit Types state input : VecX Scalar.

Lemma head_state_prefix state :
  head (rx d) (firstn (OptimizationDimensions.x d) state)
  = head (rx d) state.
Proof.
  unfold head. apply segment_firstn. unfold OptimizationDimensions.x. lia.
Qed.

Lemma obstacle_state_prefix state i :
  i < no d ->
  segment (rx d + i * 9) 9 (firstn (OptimizationDimensions.x d) state)
  = segment (rx d + i * 9) 9 state.
Proof.
  intros Hi. apply segment_firstn. unfold OptimizationDimensions.x. lia.
Qed.

Lemma head_input_prefix input :
  head (ru d) (firstn (OptimizationDimensions.u d) input)
  = head (ru d) input.
Proof.
  unfold head. apply segment_firstn. unfold OptimizationDimensions.u. lia.
Qed.

Lemma getPinocchioJointPosition_prefix state :
  SystemPinocchioMapping.getPinocchioJointPosition Mapping d
    (firstn (OptimizationDimensions.x d) state)
  = SystemPinocchioMapping.getPinocchioJointPosition Mapping d state.
Proof.
  unfold SystemPinocchioMapping.getPinocchioJointPosition.
  rewrite head_state_prefix.
  destruct (head (rx d) state) as [x_robot|]; [|reflexivity]. cbn [bind].
  destruct (PinocchioStateInputMapping.getPinocchioJointPosition _ _)
    as [q_robot|]; [|reflexivity]. cbn [bind].
  destruct (set_head _ _ _) as [q_pin|]; [|reflexivity]. cbn [bind].
  apply for_loop_ext. intros i b Hi.
  now rewrite obstacle_state_prefix by lia.
Qed.

Lemma getPinocchioJointVelocity_prefix state input :
  SystemPinocchioMapping.getPinocchioJointVelocity Mapping d
    (firstn (OptimizationDimensions.x d) state)
    (firstn (OptimizationDimensions.u d) input)
  = SystemPinocchioMapping.getPinocchioJointVelocity Mapping d state input.
Proof.
  unfold SystemPinocchioMapping.getPinocchioJointVelocity.
  rewrite head_state_prefix, head_input_prefix.
  destruct (head (rx d) state) as [x_robot|]; [|reflexivity]. cbn [bind].
  destruct (head (ru d) input) as [u_robot|]; [|reflexivity]. cbn [bind].
  destruct (PinocchioStateInputMapping.getPinocchioJointVelocity _ _ _)
    as [v_robot|]; [|reflexivity]. cbn [bind].
  destruct (set_head _ _ _) as [v_pin|]; [|reflexivity]. cbn [bind].
  apply for_loop_ext. intros i b Hi.
  now rewrite obstacle_state_prefix by lia.
Qed.

Lemma getPinocchioJointAcceleration_prefix state input :
  SystemPinocchioMapping.getPinocchioJointAcceleration Mapping d
    (firstn (OptimizationDimensions.x d) state)
    (firstn (OptimizationDimensions.u d) input)
  = SystemPinocchioMapping.getPinocchioJointAcceleration Mapping d state input.
Proof.
  unfold SystemPinocchioMapping.getPinocchioJointAcceleration.
  rewrite head_state_prefix, head_input_prefix.
  destruct (head (rx d) state) as [x_robot|]; [|reflexivity]. cbn [bind].
  destruct (head (ru d) input) as [u_robot|]; [|reflexivity]. cbn [bind].
  destruct (PinocchioStateInputMapping.getPinocchioJointAcceleration _ _ _)
    as [a_robot|]; [|reflexivity]. cbn [bind].
  destruct (set_head _ _ _) as [a_pin|]; [|reflexivity]. cbn [bind].
  apply for_loop_ext. intros i b Hi.
  now rewrite obstacle_state_prefix by lia.
Qed.

Lemma getOcs2Jacobian_prefix state (Jq_pin Jv_pin : MatX Scalar) :
  SystemPinocchioMapping.getOcs2Jacobian Mapping d
    (firstn (OptimizationDimensions.x d) state) Jq_pin Jv_pin
  = SystemPinocchioMapping.getOcs2Jacobian Mapping d state Jq_pin Jv_pin.
Proof.
  unfold SystemPinocchioMapping.getOcs2Jacobian,
    SystemPinocchioMapping.allocate_jacobians.
  rewrite head_state_prefix.
  destruct (head (rx d) state) as [x_robot|]; [|reflexivity]. cbn [bind].
  destruct (leftCols (rq d) Jq_pin) as [Jq_pin_robot|]; [|reflexivity].
  cbn [bind].
  destruct (leftCols (rv d) Jv_pin) as [Jv_pin_robot|]; [|reflexivity].
  cbn [bind].
  destruct (PinocchioStateInputMapping.getOcs2Jacobian _ _ _ _)
    as [[dfdx_robot dfdu_robot]|]; [|reflexivity]. cbn [bind].
  destruct (set_leftCols (rx d) _ _) as [dfdx|]; [|reflexivity]. cbn [bind].
  destruct (set_leftCols (ru d) _ _) as [dfdu|]; [|reflexivity]. cbn [bind].
  f_equal. apply for_loop_ext. intros i b Hi.
  now rewrite obstacle_state_prefix by lia.
Qed.

End SystemPrefixLemmas.

(** ** Reading the blocks back *)

Section LayoutLemmas.
Context {A : Type}.

Lemma layout_blocks (g : nat -> list A) off w n (pre : list A) :
  length pre = off ->
  (forall i, i < n -> length (g i) = w) ->
  let out := pre ++ concat (map g (seq 0 n)) in
  length out = off + n * w
  /\ firstn off out = pre
  /\ forall i, i < n -> segment (off + i * w) w out = Some (g i).
Proof.
  intros Hpre Hg out.
  assert (Hlen : length out = off + n * w).
  { unfold out. rewrite length_app, Hpre. f_equal.
    apply concat_length_uniform. intros i Hi. apply Hg. lia. }
  repeat split.
  - exact Hlen.
  - now apply firstn_exact.
  - intros i Hi. pose proof (block_width w Hi).
    rewrite segment_Some by lia. f_equal.
    change (firstn w (skipn (off + i * w) out)) with (block_at off w i out).
    unfold out. rewrite <- (app_nil_r (concat _)).
    now apply block_at_concat.
Qed.

End LayoutLemmas.

(** Each column of [dfdx] lies in exactly one of the blocks that
    [getOcs2Jacobian] assigns. *)
Lemma obstacle_writes_cover off c :
  forall n a,
    length (filter (in_block c)
              (map (fun i => (off + i * 9, 9)) (seq a n)))
    = if (off + a * 9 <=? c) && (c <? off + (a + n) * 9) then 1 else 0.
Proof.
  induction n as [|n IH]; intros a.
  - simpl. destruct (Nat.leb_spec (off + a * 9) c),
      (Nat.ltb_spec c (off + (a + 0) * 9)); simpl; try reflexivity; lia.
  - cbn [seq map filter]. unfold in_block at 1. cbn [fst snd].
    specialize (IH (S a)).
    destruct (Nat.leb_spec (off + a * 9) c),
      (Nat.ltb_spec c (off + a * 9 + 9)),
      (Nat.ltb_spec c (off + (a + S n) * 9)),
      (Nat.leb_spec (off + S a * 9) c),
      (Nat.ltb_spec c (off + (S a + n) * 9));
      cbn [andb length] in *; lia.
Qed.

Lemma dfdx_writes_cover (d : OptimizationDimensions.t) (c : nat) :
  c < OptimizationDimensions.x d ->
  length (filter (in_block c) (dfdx_writes d)) = 1.
Proof.
  unfold OptimizationDimensions.x, dfdx_writes. intros Hc.
  cbn [filter]. unfold in_block at 1. cbn [fst snd].
  pose proof (obstacle_writes_cover (rx d) c (no d) 0) as Hobs.
  destruct (Nat.leb_spec 0 c), (Nat.ltb_spec c (0 + rx d)),
    (Nat.leb_spec (rx d + 0 * 9) c),
    (Nat.ltb_spec c (rx d + (0 + no d) * 9));
    cbn [andb length] in *; lia.
Qed.

(** ** What is left of the fresh storage

    None of the four operations of [SystemPinocchioMapping], and neither
    [getOcs2Jacobian] of the obstacle mapping, lets the content of the
    storage it allocates reach its result. *)

Section StorageLemmas.
Context {Scalar : Type} `{ScalarZero Scalar}.
Variables U1 U2 : Uninit Scalar.
Variable Mapping : RobotDimensions.t -> PinocchioStateInputMapping.t Scalar.
Variable d : OptimizationDimensions.t.
Implicit Types state input : VecX Scalar.
Implicit Types Jq Jv Jq_pin Jv_pin : MatX Scalar.

Lemma triple_integrator_jacobian_mismatch
    (U : Uninit Scalar) (dims : RobotDimensions.t) state Jq Jv :
  0 < RobotDimensions.v dims ->
  rows Jv <> rows Jq ->
  @TripleIntegratorPinocchioMapping.getOcs2Jacobian Scalar _ U dims
    state Jq Jv = None.
Proof.
  intros Hv Hr. unfold TripleIntegratorPinocchioMapping.getOcs2Jacobian.
  set (nv := RobotDimensions.v dims) in *.
  pose proof (columns_of_uninit (rows Jq) (cols Jq + cols Jv + nv)) as Hwf.
  pose proof (cols_uninit (rows Jq) (cols Jq + cols Jv + nv)) as Hc.
  set (dfdx := MatX_uninit (rows Jq) (cols Jq + cols Jv + nv)) in *.
  assert (Hrows : rows dfdx = rows Jq) by reflexivity.
  rewrite comma_first_row; [ | now rewrite Hrows | lia | now rewrite Hrows ].
  cbn [bind].
  rewrite comma_next_mismatch; [reflexivity | reflexivity | | now rewrite Hrows].
  intros E. apply (f_equal (@length _)) in E.
  rewrite length_skipn in E. fold (cols dfdx) in E. rewrite Hc in E.
  cbn [length] in E. lia.
Qed.

Lemma triple_integrator_jacobian_independent
    (dims : RobotDimensions.t) state Jq Jv :
  0 < RobotDimensions.v dims ->
  @TripleIntegratorPinocchioMapping.getOcs2Jacobian Scalar _ U1 dims
    state Jq Jv
  = @TripleIntegratorPinocchioMapping.getOcs2Jacobian Scalar _ U2 dims
      state Jq Jv.
Proof.
  intros Hv. destruct (Nat.eq_dec (rows Jv) (rows Jq)) as [Hr|Hr].
  - now rewrite !triple_integrator_jacobian.
  - now rewrite !triple_integrator_jacobian_mismatch.
Qed.

(** The robot write and the obstacle loop on two fresh vectors. *)
Lemma fill_vector_independent (wq n : nat)
    (body1 body2 : nat -> VecX Scalar -> option (VecX Scalar))
    (g : nat -> option (VecX Scalar)) (r_out : VecX Scalar) :
  (forall i b, i < n ->
               body1 i b = p <- g i ;; set_segment (wq + i * 3) 3 b p) ->
  (forall i b, i < n ->
               body2 i b = p <- g i ;; set_segment (wq + i * 3) 3 b p) ->
  (b <- set_head wq (@VecX_uninit Scalar U1 (wq + 3 * n)) r_out ;;
   for_loop n 0 body1 b)
  = (b <- set_head wq (@VecX_uninit Scalar U2 (wq + 3 * n)) r_out ;;
     for_loop n 0 body2 b).
Proof.
  intros Hbody1 Hbody2.
  assert (Hlen1 : length (@VecX_uninit Scalar U1 (wq + 3 * n)) = wq + 3 * n)
    by (unfold VecX_uninit; now rewrite length_map, length_seq).
  assert (Hlen2 : length (@VecX_uninit Scalar U2 (wq + 3 * n)) = wq + 3 * n)
    by (unfold VecX_uninit; now rewrite length_map, length_seq).
  set (R := fun (i : nat) (c1 c2 : VecX Scalar) =>
              length c1 = wq + 3 * n /\ length c2 = wq + 3 * n
              /\ firstn (wq + i * 3) c1 = firstn (wq + i * 3) c2).
  pose proof (@set_segment_sim Scalar 0 wq (wq + 3 * n) _ _ r_out
                Hlen1 Hlen2 eq_refl) as Hhead.
  unfold set_head.
  destruct (set_segment 0 wq (@VecX_uninit Scalar U1 _) r_out) as [b1|],
    (set_segment 0 wq (@VecX_uninit Scalar U2 _) r_out) as [b2|];
    simpl in Hhead; try contradiction; [|reflexivity].
  cbn [bind].
  assert (Hloop : option_rel (R (0 + n))
                    (for_loop n 0 body1 b1) (for_loop n 0 body2 b2)).
  { apply for_loop_sim.
    - unfold R. now rewrite Nat.mul_0_l, Nat.add_0_r.
    - intros i c1 c2 [_ Hi] (Hc1 & Hc2 & Hpre). simpl in Hi.
      rewrite Hbody1, Hbody2 by exact Hi.
      destruct (g i) as [p|]; [|exact I]. cbn [bind].
      unfold R. replace (wq + S i * 3) with (wq + i * 3 + 3) by lia.
      now apply set_segment_sim. }
  destruct (for_loop n 0 body1 b1) as [c1|], (for_loop n 0 body2 b2) as [c2|];
    simpl in Hloop; try contradiction; [|reflexivity].
  destruct Hloop as (Hc1 & Hc2 & Hpre).
  rewrite !firstn_all2 in Hpre by lia. now subst.
Qed.

Lemma getPinocchioJointPosition_independent state :
  @SystemPinocchioMapping.getPinocchioJointPosition Scalar _ U1 Mapping d
    state
  = @SystemPinocchioMapping.getPinocchioJointPosition Scalar _ U2 Mapping d
      state.
Proof.
  unfold SystemPinocchioMapping.getPinocchioJointPosition.
  destruct (head (rx d) state) as [x_robot|]; [|reflexivity]. cbn [bind].
  destruct (PinocchioStateInputMapping.getPinocchioJointPosition _ _)
    as [q_robot|]; [|reflexivity]. cbn [bind].
  apply fill_vector_independent
    with (g := fun i =>
                 x_obs <- segment (rx d + i * 9) 9 state ;;
                 TripleIntegratorPinocchioMapping.getPinocchioJointPosition
                   OBSTACLE_DIMENSIONS x_obs);
    intros i b Hi; now destruct (segment (rx d + i * 9) 9 state).
Qed.

Lemma getPinocchioJointVelocity_independent state input :
  @SystemPinocchioMapping.getPinocchioJointVelocity Scalar _ U1 Mapping d
    state input
  = @SystemPinocchioMapping.getPinocchioJointVelocity Scalar _ U2 Mapping d
      state input.
Proof.
  unfold SystemPinocchioMapping.getPinocchioJointVelocity.
  destruct (head (rx d) state) as [x_robot|]; [|reflexivity]. cbn [bind].
  destruct (head (ru d) input) as [u_robot|]; [|reflexivity]. cbn [bind].
  destruct (PinocchioStateInputMapping.getPinocchioJointVelocity _ _ _)
    as [v_robot|]; [|reflexivity]. cbn [bind].
  apply fill_vector_independent
    with (g := fun i =>
                 x_obs <- segment (rx d + i * 9) 9 state ;;
                 TripleIntegratorPinocchioMapping.getPinocchioJointVelocity
                   OBSTACLE_DIMENSIONS x_obs (VecZero 3));
    intros i b Hi; now destruct (segment (rx d + i * 9) 9 state).
Qed.

Lemma getPinocchioJointAcceleration_independent state input :
  @SystemPinocchioMapping.getPinocchioJointAcceleration Scalar _ U1 Mapping d
    state input
  = @SystemPinocchioMapping.getPinocchioJointAcceleration Scalar _ U2 Mapping d
      state input.
Proof.
  unfold SystemPinocchioMapping.getPinocchioJointAcceleration.
  destruct (head (rx d) state) as [x_robot|]; [|reflexivity]. cbn [bind].
  destruct (head (ru d) input) as [u_robot|]; [|reflexivity]. cbn [bind].
  destruct (PinocchioStateInputMapping.getPinocchioJointAcceleration _ _ _)
    as [a_robot|]; [|reflexivity]. cbn [bind].
  apply fill_vector_independent
    with (g := fun i =>
                 x_obs <- segment (rx d + i * 9) 9 state ;;
                 TripleIntegratorPinocchioMapping.getPinocchioJointAcceleration
                   OBSTACLE_DIMENSIONS x_obs (VecZero 3));
    intros i b Hi; now destruct (segment (rx d + i * 9) 9 state).
Qed.

Lemma getOcs2Jacobian_independent state Jq_pin Jv_pin :
  @SystemPinocchioMapping.getOcs2Jacobian Scalar _ U1 Mapping d
    state Jq_pin Jv_pin
  = @SystemPinocchioMapping.getOcs2Jacobian Scalar _ U2 Mapping d
      state Jq_pin Jv_pin.
Proof.
  unfold SystemPinocchioMapping.getOcs2Jacobian,
    SystemPinocchioMapping.allocate_jacobians.
  destruct (head (rx d) state) as [x_robot|]; [|reflexivity]. cbn [bind].
  destruct (leftCols (rq d) Jq_pin) as [Jq_pin_robot|]; [|reflexivity].
  cbn [bind].
  destruct (leftCols (rv d) Jv_pin) as [Jv_pin_robot|]; [|reflexivity].
  cbn [bind].
  destruct (PinocchioStateInputMapping.getOcs2Jacobian _ _ _ _)
    as [[dfdx_robot dfdu_robot]|]; [|reflexivity]. cbn [bind].
  set (r := rows Jq_pin). unfold set_leftCols.
  pose proof (@set_middleCols_sim Scalar r (OptimizationDimensions.x d)
                0 (rx d) _ _ dfdx_robot
                (agree_upto_uninit U1 U2 r (OptimizationDimensions.x d)))
    as Hx.
  pose proof (@set_middleCols_sim Scalar r (OptimizationDimensions.u d)
                0 (ru d) _ _ dfdu_robot
                (agree_upto_uninit U1 U2 r (OptimizationDimensions.u d)))
    as Hu.
  destruct (set_middleCols 0 (rx d) (@MatX_uninit Scalar U1 _ _) dfdx_robot)
    as [dfdx1|],
    (set_middleCols 0 (rx d) (@MatX_uninit Scalar U2 _ _) dfdx_robot)
    as [dfdx2|];
    simpl in Hx; try contradiction; [|reflexivity].
  cbn [bind].
  destruct (set_middleCols 0 (ru d) (@MatX_uninit Scalar U1 _ _) dfdu_robot)
    as [dfdu1|],
    (set_middleCols 0 (ru d) (@MatX_uninit Scalar U2 _ _) dfdu_robot)
    as [dfdu2|];
    simpl in Hu; try contradiction; [|reflexivity].
  cbn [bind].
  apply agree_upto_all in Hu. subst dfdu2.
  match goal with
  | |- bind (for_loop _ _ ?b1 _) _ = bind (for_loop _ _ ?b2 _) _ =>
      assert (Hloop : option_rel
                        (agree_upto r (OptimizationDimensions.x d)
                           (rx d + (0 + no d) * 9))
                        (for_loop (no d) 0 b1 dfdx1)
                        (for_loop (no d) 0 b2 dfdx2))
  end.
  { apply for_loop_sim
      with (R := fun i => agree_upto r (OptimizationDimensions.x d)
                            (rx d + i * 9)).
    - replace (rx d + 0 * 9) with (rx d) by lia. exact Hx.
    - intros i M1 M2 Hi HM.
      destruct (segment (rx d + i * 9) 9 state) as [x_obs|]; [|exact I].
      cbn [bind].
      destruct (middleCols (rq d + i * 3) 3 Jq_pin) as [Jq_pin_obs|];
        [|exact I]. cbn [bind].
      destruct (middleCols (rv d + i * 3) 3 Jv_pin) as [Jv_pin_obs|];
        [|exact I]. cbn [bind].
      cbn [PinocchioStateInputMapping.getOcs2Jacobian
           OBSTACLE_PINOCCHIO_MAPPING TripleIntegratorPinocchioMapping.mapping].
      rewrite (triple_integrator_jacobian_independent OBSTACLE_DIMENSIONS
                 x_obs Jq_pin_obs Jv_pin_obs) by (simpl; lia).
      destruct (TripleIntegratorPinocchioMapping.getOcs2Jacobian _ _ _ _)
        as [[dfdx_obs dfdu_obs]|]; [|exact I]. cbn [bind].
      replace (rx d + S i * 9) with (rx d + i * 9 + 9) by lia.
      now apply set_middleCols_sim. }
  destruct (for_loop (no d) 0 _ dfdx1) as [M1|],
    (for_loop (no d) 0 _ dfdx2) as [M2|];
    simpl in Hloop; try contradiction; [|reflexivity].
  cbn [bind]. do 2 f_equal. apply agree_upto_all with (r := r)
    (total := OptimizationDimensions.x d).
  replace (OptimizationDimensions.x d) with (rx d + no d * 9) at 2
    by (unfold OptimizationDimensions.x; lia).
  exact Hloop.
Qed.

End StorageLemmas.

(** * The claims *)

Section ObstacleClaims.
Context {Scalar : Type} `{ScalarZero Scalar} `{Uninit Scalar}.

(** C4.  On a state of exactly nine entries the obstacle mapping's
    [getPinocchioJointPosition] returns entries 0..2, its
    [getPinocchioJointVelocity] entries 3..5 and its
    [getPinocchioJointAcceleration] entries 6..8, and the last two return
    the same for any two inputs. *)
Theorem obstacle_mapping_slices
    (s0 s1 s2 s3 s4 s5 s6 s7 s8 : Scalar) (input input' : VecX Scalar) :
  let state := [s0; s1; s2; s3; s4; s5; s6; s7; s8] in
  PinocchioStateInputMapping.getPinocchioJointPosition
    OBSTACLE_PINOCCHIO_MAPPING state = Some [s0; s1; s2]
  /\ PinocchioStateInputMapping.getPinocchioJointVelocity
       OBSTACLE_PINOCCHIO_MAPPING state input = Some [s3; s4; s5]
  /\ PinocchioStateInputMapping.getPinocchioJointAcceleration
       OBSTACLE_PINOCCHIO_MAPPING state input = Some [s6; s7; s8]
  /\ PinocchioStateInputMapping.getPinocchioJointVelocity
       OBSTACLE_PINOCCHIO_MAPPING state input
     = PinocchioStateInputMapping.getPinocchioJointVelocity
         OBSTACLE_PINOCCHIO_MAPPING state input'
  /\ PinocchioStateInputMapping.getPinocchioJointAcceleration
       OBSTACLE_PINOCCHIO_MAPPING state input
     = PinocchioStateInputMapping.getPinocchioJointAcceleration
         OBSTACLE_PINOCCHIO_MAPPING state input'.
Proof.
  intros state. repeat split; reflexivity.
Qed.

(** C9.  The obstacle mapping's [getOcs2Jacobian] does not depend on its
    state argument: for any two states, of any lengths, and the same [Jq] and
    [Jv], the two calls return the same, whatever each finds in the storage
    it allocates. *)
Theorem obstacle_jacobian_ignores_state
    (U1 U2 : Uninit Scalar) (s1 s2 : VecX Scalar) (Jq Jv : MatX Scalar) :
  PinocchioStateInputMapping.getOcs2Jacobian
    (@OBSTACLE_PINOCCHIO_MAPPING Scalar _ U1) s1 Jq Jv
  = PinocchioStateInputMapping.getOcs2Jacobian
      (@OBSTACLE_PINOCCHIO_MAPPING Scalar _ U2) s2 Jq Jv.
Proof.
  cbn [PinocchioStateInputMapping.getOcs2Jacobian OBSTACLE_PINOCCHIO_MAPPING
       TripleIntegratorPinocchioMapping.mapping].
  rewrite (triple_integrator_jacobian_independent U1 U2 OBSTACLE_DIMENSIONS
             s1 Jq Jv) by (simpl; lia).
  reflexivity.
Qed.

(** C2.  For an obstacle state of nine entries and [Jq], [Jv] of three
    columns each and the same number of rows, the obstacle mapping's
    [getOcs2Jacobian] returns [dfdx = [Jq | Jv | Zero(rows, 3)]], which has
    nine columns, and [dfdu = Zero(rows, 0)], which has none. *)
Theorem obstacle_jacobian_blocks
    (state : VecX Scalar) (Jq Jv : MatX Scalar) :
  length state = 9 -> cols Jq = 3 -> cols Jv = 3 -> rows Jv = rows Jq ->
  PinocchioStateInputMapping.getOcs2Jacobian
    OBSTACLE_PINOCCHIO_MAPPING state Jq Jv
  = Some (hcat (hcat Jq Jv) (Zero (rows Jq) 3), Zero (rows Jq) 0)
  /\ rows (hcat (hcat Jq Jv) (Zero (rows Jq) 3)) = rows Jq
  /\ cols (hcat (hcat Jq Jv) (Zero (rows Jq) 3)) = 9
  /\ cols (Zero (rows Jq) 0) = 0.
Proof.
  intros _ Hq Hv Hr. repeat split.
  - cbn [PinocchioStateInputMapping.getOcs2Jacobian
         OBSTACLE_PINOCCHIO_MAPPING TripleIntegratorPinocchioMapping.mapping].
    now rewrite triple_integrator_jacobian by (simpl; lia).
  - unfold cols in *. simpl. rewrite !length_app, Hq, Hv. reflexivity.
Qed.

End ObstacleClaims.

Lemma obstacle_jacobian_blocks_witness :
  @PinocchioStateInputMapping.getOcs2Jacobian Z
    (@OBSTACLE_PINOCCHIO_MAPPING Z Z_zero stale)
    [101; 102; 103; 104; 105; 106; 107; 108; 109]%Z obstacle_Jq obstacle_Jv
  = Some (mkMat 2 [[2; 12]; [3; 13]; [4; 14]; [22; 32]; [23; 33]; [24; 34];
                   [0; 0]; [0; 0]; [0; 0]]%Z,
          mkMat 2 []).
Proof.
  apply (@obstacle_jacobian_blocks Z Z_zero stale
           [101; 102; 103; 104; 105; 106; 107; 108; 109]%Z
           obstacle_Jq obstacle_Jv); reflexivity.
Defined.

(** C6.  In the scenario of the specification (robot [q = v = 1], [x = 2],
    [u = 1], one obstacle, the triple-integrator mapping for the robot) the
    state [[10, 20, 1, ..., 9]] is mapped to the position [[10, 1, 2, 3]],
    and with the input [[0]] to the velocity [[20, 4, 5, 6]] and the
    acceleration [[20, 7, 8, 9]], whatever the fresh storage holds. *)
Theorem concrete_scenario (U : Uninit Z) :
  SystemPinocchioMapping.getPinocchioJointPosition
    integrator_robot scenario_dims scenario_state
  = Some [10; 1; 2; 3]%Z
  /\ SystemPinocchioMapping.getPinocchioJointVelocity
       integrator_robot scenario_dims scenario_state [0%Z]
     = Some [20; 4; 5; 6]%Z
  /\ SystemPinocchioMapping.getPinocchioJointAcceleration
       integrator_robot scenario_dims scenario_state [0%Z]
     = Some [20; 7; 8; 9]%Z.
Proof.
  repeat split; reflexivity.
Qed.

Section SystemClaims.
Context {Scalar : Type} `{ScalarZero Scalar} `{Uninit Scalar}.
Variable Mapping : RobotDimensions.t -> PinocchioStateInputMapping.t Scalar.
Variable d : OptimizationDimensions.t.
Implicit Types state input : VecX Scalar.
Implicit Types Jq_pin Jv_pin dfdx_robot dfdu_robot : MatX Scalar.

(** C5.  For a state of [x()] entries and an input of [u()] entries, and a
    robot mapping that answers with [robot.v] entries,
    [getPinocchioJointVelocity] returns [robot.v + 3 o] entries: the first
    [robot.v] are the robot mapping's velocity for the first [robot.x]
    entries of the state and the first [robot.u] of the input, and block [i]
    of three entries at offset [robot.v + 3 i] is the obstacle mapping's
    velocity for the obstacle's nine state entries and a zero input of three
    entries.  [getPinocchioJointAcceleration] has the same structure, with
    both mappings asked for the acceleration. *)
Theorem system_velocity_acceleration_layout
    state input (v_robot a_robot : VecX Scalar) :
  length state = OptimizationDimensions.x d ->
  length input = OptimizationDimensions.u d ->
  PinocchioStateInputMapping.getPinocchioJointVelocity
    (Mapping (OptimizationDimensions.robot d))
    (firstn (rx d) state) (firstn (ru d) input) = Some v_robot ->
  length v_robot = rv d ->
  PinocchioStateInputMapping.getPinocchioJointAcceleration
    (Mapping (OptimizationDimensions.robot d))
    (firstn (rx d) state) (firstn (ru d) input) = Some a_robot ->
  length a_robot = rv d ->
  (exists v_pin,
      SystemPinocchioMapping.getPinocchioJointVelocity Mapping d state input
      = Some v_pin
      /\ length v_pin = rv d + 3 * no d
      /\ firstn (rv d) v_pin = v_robot
      /\ forall i, i < no d ->
           exists x_obs v_obs,
             segment (rx d + 9 * i) 9 state = Some x_obs
             /\ PinocchioStateInputMapping.getPinocchioJointVelocity
                  OBSTACLE_PINOCCHIO_MAPPING x_obs (VecZero 3) = Some v_obs
             /\ segment (rv d + 3 * i) 3 v_pin = Some v_obs)
  /\ (exists a_pin,
        SystemPinocchioMapping.getPinocchioJointAcceleration
          Mapping d state input
        = Some a_pin
        /\ length a_pin = rv d + 3 * no d
        /\ firstn (rv d) a_pin = a_robot
        /\ forall i, i < no d ->
             exists x_obs a_obs,
               segment (rx d + 9 * i) 9 state = Some x_obs
               /\ PinocchioStateInputMapping.getPinocchioJointAcceleration
                    OBSTACLE_PINOCCHIO_MAPPING x_obs (VecZero 3) = Some a_obs
               /\ segment (rv d + 3 * i) 3 a_pin = Some a_obs).
Proof.
  intros Hlen Hin Hv Hvl Ha Hal.
  assert (Hu : firstn (ru d) input = input)
    by (apply firstn_all2; unfold OptimizationDimensions.u in Hin; lia).
  rewrite Hu in Hv, Ha.
  split.
  - rewrite getPinocchioJointVelocity_layout by assumption.
    rewrite Hv. cbn [bind]. rewrite (proj2 (Nat.eqb_eq _ _) Hvl).
    eexists. split; [reflexivity|].
    destruct (@layout_blocks Scalar
                (fun i => firstn 3 (skipn 3 (block_at (rx d) 9 i state)))
                (rv d) 3 (no d) v_robot Hvl) as (Hl & Hf & Hb).
    { intros i Hi. destruct (obstacle_state_Some d state Hlen Hi) as [_ Hb].
      rewrite length_firstn, length_skipn. lia. }
    repeat split; [lia | exact Hf |].
    intros i Hi. destruct (obstacle_state_Some d state Hlen Hi) as [Hs Hb9].
    exists (block_at (rx d) 9 i state), 
      (firstn 3 (skipn 3 (block_at (rx d) 9 i state))).
    replace (rx d + 9 * i) with (rx d + i * 9) by lia.
    replace (rv d + 3 * i) with (rv d + i * 3) by lia.
    repeat split; [exact Hs | now apply obstacle_velocity | now apply Hb].
  - rewrite getPinocchioJointAcceleration_layout by assumption.
    rewrite Ha. cbn [bind]. rewrite (proj2 (Nat.eqb_eq _ _) Hal).
    eexists. split; [reflexivity|].
    destruct (@layout_blocks Scalar
                (fun i => firstn 3 (skipn 6 (block_at (rx d) 9 i state)))
                (rv d) 3 (no d) a_robot Hal) as (Hl & Hf & Hb).
    { intros i Hi. destruct (obstacle_state_Some d state Hlen Hi) as [_ Hb].
      rewrite length_firstn, length_skipn. lia. }
    repeat split; [lia | exact Hf |].
    intros i Hi. destruct (obstacle_state_Some d state Hlen Hi) as [Hs Hb9].
    exists (block_at (rx d) 9 i state), 
      (firstn 3 (skipn 6 (block_at (rx d) 9 i state))).
    replace (rx d + 9 * i) with (rx d + i * 9) by lia.
    replace (rv d + 3 * i) with (rv d + i * 3) by lia.
    repeat split; [exact Hs | now apply obstacle_acceleration | now apply Hb].
Qed.

(** C1.  For a state of [x()] entries, [Jq_pin] of [robot.q + 3 o] columns
    and [Jv_pin] of [robot.v + 3 o] columns with the same number of rows, and
    a robot mapping that answers with blocks of the robot's sizes,
    [getOcs2Jacobian] returns [(dfdx, dfdu)] with [x()] and [u()] columns;
    the leftmost [robot.x] columns of [dfdx] and [robot.u] columns of [dfdu]
    are the robot mapping's result for the first [robot.x] entries of the
    state and the leftmost [robot.q] and [robot.v] columns of [Jq_pin] and
    [Jv_pin]; for each obstacle [i] the columns [robot.x + 9 i] to
    [robot.x + 9 i + 8] of [dfdx] are the obstacle mapping's [dfdx] for the
    obstacle's nine state entries and columns [robot.q + 3 i ..] of [Jq_pin]
    and [robot.v + 3 i ..] of [Jv_pin]; [dfdx] is the fresh storage after
    the assignments [dfdx_writes] of the robot's and the obstacles' blocks,
    and every column of [dfdx] lies in exactly one of the assigned blocks. *)
Theorem system_jacobian_layout
    state Jq_pin Jv_pin (Jq_pin_robot Jv_pin_robot : MatX Scalar)
    dfdx_robot dfdu_robot :
  length state = OptimizationDimensions.x d ->
  cols Jq_pin = OptimizationDimensions.q d ->
  cols Jv_pin = OptimizationDimensions.v d ->
  rows Jv_pin = rows Jq_pin ->
  leftCols (rq d) Jq_pin = Some Jq_pin_robot ->
  leftCols (rv d) Jv_pin = Some Jv_pin_robot ->
  PinocchioStateInputMapping.getOcs2Jacobian
    (Mapping (OptimizationDimensions.robot d))
    (firstn (rx d) state) Jq_pin_robot Jv_pin_robot
  = Some (dfdx_robot, dfdu_robot) ->
  rows dfdx_robot = rows Jq_pin -> cols dfdx_robot = rx d ->
  rows dfdu_robot = rows Jq_pin -> cols dfdu_robot = ru d ->
  exists dfdx dfdu,
    SystemPinocchioMapping.getOcs2Jacobian Mapping d state Jq_pin Jv_pin
    = Some (dfdx, dfdu)
    /\ cols dfdx = OptimizationDimensions.x d
    /\ cols dfdu = OptimizationDimensions.u d
    /\ OptimizationDimensions.u d = ru d
    /\ leftCols (rx d) dfdx = Some dfdx_robot
    /\ leftCols (ru d) dfdu = Some dfdu_robot
    /\ (forall i, i < no d ->
          exists x_obs Jq_pin_obs Jv_pin_obs dfdx_obs dfdu_obs,
            segment (rx d + 9 * i) 9 state = Some x_obs
            /\ middleCols (rq d + 3 * i) 3 Jq_pin = Some Jq_pin_obs
            /\ middleCols (rv d + 3 * i) 3 Jv_pin = Some Jv_pin_obs
            /\ PinocchioStateInputMapping.getOcs2Jacobian
                 OBSTACLE_PINOCCHIO_MAPPING x_obs Jq_pin_obs Jv_pin_obs
               = Some (dfdx_obs, dfdu_obs)
            /\ middleCols (rx d + 9 * i) 9 dfdx = Some dfdx_obs)
    /\ (exists dfdx_obstacles,
          Forall2 (fun i dfdx_obs =>
                     obstacle_jacobian
                       d state Jq_pin Jv_pin i = Some dfdx_obs)
            (seq 0 (no d)) dfdx_obstacles
          /\ perform_writes
               (fst (SystemPinocchioMapping.allocate_jacobians
                       d (rows Jq_pin)))
               (combine (dfdx_writes d) (dfdx_robot :: dfdx_obstacles))
             = Some dfdx)
    /\ (forall c, c < OptimizationDimensions.x d ->
          length (filter (in_block c) (dfdx_writes d)) = 1).
Proof.
  intros Hlen Hq Hv Hr HJq HJv Hrobot Hxr Hxc Hur Huc.
  assert (Hq' := Hq). assert (Hv' := Hv).
  unfold OptimizationDimensions.q in Hq'. unfold OptimizationDimensions.v in Hv'.
  unfold leftCols in HJq, HJv.
  rewrite middleCols_Some, skipn_0 in HJq by lia.
  rewrite middleCols_Some, skipn_0 in HJv by lia.
  injection HJq as <-. injection HJv as <-.
  rewrite (@getOcs2Jacobian_layout Scalar _ _ Mapping d state Jq_pin Jv_pin
             dfdx_robot dfdu_robot); auto.
  destruct (@layout_blocks (list Scalar) (obstacle_columns d Jq_pin Jv_pin)
              (rx d) 9 (no d) (coldata dfdx_robot) Hxc) as (Hl & Hf & Hb).
  { intros i Hi.
    now destruct (obstacle_call d state Jq_pin Jv_pin Hlen Hq Hv Hr Hi)
      as (_ & _ & _ & _ & Hcols). }
  eexists. eexists. split; [reflexivity|].
  repeat split.
  - unfold cols, OptimizationDimensions.x. cbn [coldata]. lia.
  - exact Huc.
  - unfold leftCols, middleCols, cols. cbn [coldata rows].
    rewrite segment_Some by lia. cbn [bind]. rewrite skipn_0, Hf.
    destruct dfdx_robot as [xr xc]. simpl in Hxr. now subst xr.
  - rewrite <- Huc. apply leftCols_all.
  - intros i Hi.
    destruct (obstacle_call d state Jq_pin Jv_pin Hlen Hq Hv Hr Hi)
      as (Hs & HJqi & HJvi & Hcall & _).
    replace (rx d + 9 * i) with (rx d + i * 9) by lia.
    replace (rq d + 3 * i) with (rq d + i * 3) by lia.
    replace (rv d + 3 * i) with (rv d + i * 3) by lia.
    do 5 eexists.
    split; [exact Hs|]. split; [exact HJqi|]. split; [exact HJvi|].
    split; [exact Hcall|].
    unfold middleCols. cbn [coldata rows]. now rewrite Hb.
  - exists (map (fun i => mkMat (rows Jq_pin)
                            (obstacle_columns d Jq_pin Jv_pin i))
                (seq 0 (no d))).
    split.
    + apply Forall2_map_seq. intros i [_ Hi]. simpl in Hi.
      now destruct (obstacle_jacobian_Some d state Jq_pin Jv_pin
                      Hlen Hq Hv Hr Hi) as [-> _].
    + cbn [SystemPinocchioMapping.allocate_jacobians fst].
      now apply perform_dfdx_writes with (state := state).
  - apply dfdx_writes_cover.
Qed.

(** C3.  Without obstacles, on a state of [robot.x] entries, an input of
    [robot.u] entries and Jacobians of [robot.q] and [robot.v] columns, each
    of the four operations returns what the robot mapping returns on the
    same arguments, for a robot mapping whose answers have the sizes of its
    contract. *)
Theorem no_obstacles_is_robot_mapping state input Jq_pin Jv_pin :
  no d = 0 ->
  length state = rx d -> length input = ru d ->
  cols Jq_pin = rq d -> cols Jv_pin = rv d ->
  (forall q_robot,
      PinocchioStateInputMapping.getPinocchioJointPosition
        (Mapping (OptimizationDimensions.robot d)) state = Some q_robot ->
      length q_robot = rq d) ->
  (forall v_robot,
      PinocchioStateInputMapping.getPinocchioJointVelocity
        (Mapping (OptimizationDimensions.robot d)) state input
      = Some v_robot ->
      length v_robot = rv d) ->
  (forall a_robot,
      PinocchioStateInputMapping.getPinocchioJointAcceleration
        (Mapping (OptimizationDimensions.robot d)) state input
      = Some a_robot ->
      length a_robot = rv d) ->
  (forall dfdx_robot dfdu_robot,
      PinocchioStateInputMapping.getOcs2Jacobian
        (Mapping (OptimizationDimensions.robot d)) state Jq_pin Jv_pin
      = Some (dfdx_robot, dfdu_robot) ->
      (rows dfdx_robot = rows Jq_pin /\ cols dfdx_robot = rx d)
      /\ (rows dfdu_robot = rows Jq_pin /\ cols dfdu_robot = ru d)) ->
  SystemPinocchioMapping.getPinocchioJointPosition Mapping d state
  = PinocchioStateInputMapping.getPinocchioJointPosition
      (Mapping (OptimizationDimensions.robot d)) state
  /\ SystemPinocchioMapping.getPinocchioJointVelocity Mapping d state input
     = PinocchioStateInputMapping.getPinocchioJointVelocity
         (Mapping (OptimizationDimensions.robot d)) state input
  /\ SystemPinocchioMapping.getPinocchioJointAcceleration Mapping d state input
     = PinocchioStateInputMapping.getPinocchioJointAcceleration
         (Mapping (OptimizationDimensions.robot d)) state input
  /\ SystemPinocchioMapping.getOcs2Jacobian Mapping d state Jq_pin Jv_pin
     = PinocchioStateInputMapping.getOcs2Jacobian
         (Mapping (OptimizationDimensions.robot d)) state Jq_pin Jv_pin.
Proof.
  intros Ho Hlen Hin Hq Hv Hpos Hvel Hacc Hjac.
  assert (Hx : length state = OptimizationDimensions.x d)
    by (unfold OptimizationDimensions.x; lia).
  assert (Hu : length input = OptimizationDimensions.u d) by exact Hin.
  assert (Hs : firstn (rx d) state = state) by (apply firstn_all2; lia).
  split; [|split; [|split]].
  - rewrite getPinocchioJointPosition_layout, Hs by assumption.
    destruct (PinocchioStateInputMapping.getPinocchioJointPosition _ _)
      as [q_robot|] eqn:E; [|reflexivity].
    cbn [bind]. rewrite (proj2 (Nat.eqb_eq _ _) (Hpos _ eq_refl)), Ho.
    simpl. now rewrite app_nil_r.
  - rewrite getPinocchioJointVelocity_layout, Hs by assumption.
    destruct (PinocchioStateInputMapping.getPinocchioJointVelocity _ _ _)
      as [v_robot|] eqn:E; [|reflexivity].
    cbn [bind]. rewrite (proj2 (Nat.eqb_eq _ _) (Hvel _ eq_refl)), Ho.
    simpl. now rewrite app_nil_r.
  - rewrite getPinocchioJointAcceleration_layout, Hs by assumption.
    destruct (PinocchioStateInputMapping.getPinocchioJointAcceleration _ _ _)
      as [a_robot|] eqn:E; [|reflexivity].
    cbn [bind]. rewrite (proj2 (Nat.eqb_eq _ _) (Hacc _ eq_refl)), Ho.
    simpl. now rewrite app_nil_r.
  - assert (HJq : leftCols (rq d) Jq_pin = Some Jq_pin)
      by (rewrite <- Hq; apply leftCols_all).
    assert (HJv : leftCols (rv d) Jv_pin = Some Jv_pin)
      by (rewrite <- Hv; apply leftCols_all).
    destruct (PinocchioStateInputMapping.getOcs2Jacobian _ _ _ _)
      as [[dfdx_robot dfdu_robot]|] eqn:E.
    + destruct (Hjac _ _ eq_refl) as [[Hxr Hxc] [Hur Huc]].
      assert (HJq' : mkMat (rows Jq_pin) (firstn (rq d) (coldata Jq_pin))
                     = Jq_pin).
      { unfold cols in Hq. rewrite <- Hq, firstn_all. now destruct Jq_pin. }
      assert (HJv' : mkMat (rows Jv_pin) (firstn (rv d) (coldata Jv_pin))
                     = Jv_pin).
      { unfold cols in Hv. rewrite <- Hv, firstn_all. now destruct Jv_pin. }
      rewrite (@getOcs2Jacobian_layout Scalar _ _ Mapping d state Jq_pin Jv_pin
                 dfdx_robot dfdu_robot); auto.
      * rewrite Ho. simpl. rewrite app_nil_r. f_equal. f_equal.
        destruct dfdx_robot as [xr xc]. simpl in *. now subst.
      * unfold OptimizationDimensions.q. lia.
      * unfold OptimizationDimensions.v. lia.
      * lia.
      * now rewrite Hs, HJq', HJv'.
    + unfold SystemPinocchioMapping.getOcs2Jacobian,
        SystemPinocchioMapping.allocate_jacobians,
        SystemPinocchioMapping.robot_mapping_.
      rewrite head_Some, Hs, HJq, HJv by lia. cbn [bind].
      now rewrite E.
Qed.

End SystemClaims.

Section InterchangeClaims.
Context {Scalar : Type} `{ScalarZero Scalar}.
Variables U1 U2 : Uninit Scalar.
Variable Mapping : RobotDimensions.t -> PinocchioStateInputMapping.t Scalar.
Variable d : OptimizationDimensions.t.
Implicit Types state input : VecX Scalar.

(** An operation that lays its result out as the robot's part followed by
    one block per obstacle commutes with the exchange of two obstacles. *)
Lemma swap_commutes (wq : nat)
    (robot_part : VecX Scalar -> option (VecX Scalar))
    (part : VecX Scalar -> VecX Scalar)
    (op : VecX Scalar -> option (VecX Scalar)) state i j :
  (forall s,
      length s = OptimizationDimensions.x d ->
      op s = q <- robot_part (firstn (rx d) s) ;;
             if length q =? wq
             then Some (q ++ concat (map (fun k => part (block_at (rx d) 9 k s))
                                         (seq 0 (no d))))
             else None) ->
  (forall b, length b = 9 -> length (part b) = 3) ->
  length state = OptimizationDimensions.x d ->
  i < no d -> j < no d ->
  op (swap_blocks (rx d) 9 (no d) i j state)
  = option_map (swap_blocks wq 3 (no d) i j) (op state)
  /\ forall out,
       op state = Some out ->
       firstn wq (swap_blocks wq 3 (no d) i j out) = firstn wq out.
Proof.
  intros Hop Hpart Hlen Hi Hj.
  assert (Hlen9 : length state = rx d + no d * 9)
    by (unfold OptimizationDimensions.x in Hlen; lia).
  assert (Hlen' : length (swap_blocks (rx d) 9 (no d) i j state)
                  = OptimizationDimensions.x d)
    by (rewrite swap_blocks_length; auto).
  assert (Hparts : forall k, k < no d ->
                     length (part (block_at (rx d) 9 k state)) = 3).
  { intros k Hk. apply Hpart. now apply length_block_at with (n := no d). }
  rewrite (Hop _ Hlen'), (Hop _ Hlen).
  rewrite swap_blocks_prefix by lia.
  destruct (robot_part (firstn (rx d) state)) as [q|];
    [|split; [reflexivity | discriminate]].
  cbn [bind]. destruct (Nat.eqb_spec (length q) wq) as [Hq|Hq];
    [|split; [reflexivity | discriminate]].
  cbn [option_map]. split.
  - rewrite swap_blocks_layout with (w := 3); auto.
    f_equal. f_equal. f_equal.
    apply map_ext_in. intros k Hk. apply in_seq in Hk.
    rewrite swap_blocks_block; auto. lia.
  - intros out [= <-]. apply swap_blocks_prefix.
    rewrite length_app. lia.
Qed.

(** C8.  Exchanging the nine-entry blocks of obstacles [i] and [j] in a
    state of [x()] entries exchanges the three-entry blocks [i] and [j] of
    the position, the velocity and the acceleration, and leaves the robot's
    entries of the three results as they were; the two calls may find
    different contents in the storage they allocate. *)
Theorem obstacles_interchangeable state input i j :
  length state = OptimizationDimensions.x d ->
  length input = OptimizationDimensions.u d ->
  i < no d -> j < no d ->
  let state' := swap_blocks (rx d) 9 (no d) i j state in
  (@SystemPinocchioMapping.getPinocchioJointPosition Scalar _ U1 Mapping d
     state'
   = option_map (swap_blocks (rq d) 3 (no d) i j)
       (@SystemPinocchioMapping.getPinocchioJointPosition Scalar _ U2
          Mapping d state)
   /\ forall q_pin,
        @SystemPinocchioMapping.getPinocchioJointPosition Scalar _ U2
          Mapping d state = Some q_pin ->
        firstn (rq d) (swap_blocks (rq d) 3 (no d) i j q_pin)
        = firstn (rq d) q_pin)
  /\ (@SystemPinocchioMapping.getPinocchioJointVelocity Scalar _ U1 Mapping d
        state' input
      = option_map (swap_blocks (rv d) 3 (no d) i j)
          (@SystemPinocchioMapping.getPinocchioJointVelocity Scalar _ U2
             Mapping d state input)
      /\ forall v_pin,
           @SystemPinocchioMapping.getPinocchioJointVelocity Scalar _ U2
             Mapping d state input = Some v_pin ->
           firstn (rv d) (swap_blocks (rv d) 3 (no d) i j v_pin)
           = firstn (rv d) v_pin)
  /\ (@SystemPinocchioMapping.getPinocchioJointAcceleration Scalar _ U1
        Mapping d state' input
      = option_map (swap_blocks (rv d) 3 (no d) i j)
          (@SystemPinocchioMapping.getPinocchioJointAcceleration Scalar _ U2
             Mapping d state input)
      /\ forall a_pin,
           @SystemPinocchioMapping.getPinocchioJointAcceleration Scalar _ U2
             Mapping d state input = Some a_pin ->
           firstn (rv d) (swap_blocks (rv d) 3 (no d) i j a_pin)
           = firstn (rv d) a_pin).
Proof.
  intros Hlen Hin Hi Hj state'. unfold state'.
  rewrite (getPinocchioJointPosition_independent U1 U2).
  rewrite (getPinocchioJointVelocity_independent U1 U2).
  rewrite (getPinocchioJointAcceleration_independent U1 U2).
  split; [|split].
  - apply swap_commutes
      with (op := @SystemPinocchioMapping.getPinocchioJointPosition
                    Scalar _ U2 Mapping d)
           (robot_part := PinocchioStateInputMapping.getPinocchioJointPosition
                            (Mapping (OptimizationDimensions.robot d)))
           (part := firstn 3); auto.
    + intros s Hs. now apply getPinocchioJointPosition_layout.
    + intros b Hb. rewrite length_firstn. lia.
  - apply swap_commutes
      with (op := fun s =>
                    @SystemPinocchioMapping.getPinocchioJointVelocity
                      Scalar _ U2 Mapping d s input)
           (robot_part := fun x_robot =>
              PinocchioStateInputMapping.getPinocchioJointVelocity
                (Mapping (OptimizationDimensions.robot d)) x_robot input)
           (part := fun b => firstn 3 (skipn 3 b)); auto.
    + intros s Hs. now apply getPinocchioJointVelocity_layout.
    + intros b Hb. rewrite length_firstn, length_skipn. lia.
  - apply swap_commutes
      with (op := fun s =>
                    @SystemPinocchioMapping.getPinocchioJointAcceleration
                      Scalar _ U2 Mapping d s input)
           (robot_part := fun x_robot =>
              PinocchioStateInputMapping.getPinocchioJointAcceleration
                (Mapping (OptimizationDimensions.robot d)) x_robot input)
           (part := fun b => firstn 3 (skipn 6 b)); auto.
    + intros s Hs. now apply getPinocchioJointAcceleration_layout.
    + intros b Hb. rewrite length_firstn, length_skipn. lia.
Qed.

End InterchangeClaims.

Section StorageClaims.
Context {Scalar : Type} `{ScalarZero Scalar}.
Variable Mapping : RobotDimensions.t -> PinocchioStateInputMapping.t Scalar.
Variable d : OptimizationDimensions.t.



(** C10.  Two states that agree on their first [x()] entries and two inputs
    that agree on their first [u()] entries, whatever their lengths, give
    the same results in all four operations, also when the two calls find
    different contents in the storage they allocate. *)
Theorem system_reads_prefixes
    (U1 U2 : Uninit Scalar) (state1 state2 input1 input2 : VecX Scalar)
    (Jq_pin Jv_pin : MatX Scalar) :
  firstn (OptimizationDimensions.x d) state1
  = firstn (OptimizationDimensions.x d) state2 ->
  firstn (OptimizationDimensions.u d) input1
  = firstn (OptimizationDimensions.u d) input2 ->
  @SystemPinocchioMapping.getPinocchioJointPosition Scalar _ U1 Mapping d
    state1
  = @SystemPinocchioMapping.getPinocchioJointPosition Scalar _ U2 Mapping d
      state2
  /\ @SystemPinocchioMapping.getPinocchioJointVelocity Scalar _ U1 Mapping d
       state1 input1
     = @SystemPinocchioMapping.getPinocchioJointVelocity Scalar _ U2 Mapping d
         state2 input2
  /\ @SystemPinocchioMapping.getPinocchioJointAcceleration Scalar _ U1
       Mapping d state1 input1
     = @SystemPinocchioMapping.getPinocchioJointAcceleration Scalar _ U2
         Mapping d state2 input2
  /\ @SystemPinocchioMapping.getOcs2Jacobian Scalar _ U1 Mapping d
       state1 Jq_pin Jv_pin
     = @SystemPinocchioMapping.getOcs2Jacobian Scalar _ U2 Mapping d
         state2 Jq_pin Jv_pin.
Proof.
  intros Hs Hu. split; [|split; [|split]].
  - rewrite (getPinocchioJointPosition_independent U1 U2).
    rewrite <- (getPinocchioJointPosition_prefix Mapping d state1).
    rewrite <- (getPinocchioJointPosition_prefix Mapping d state2).
    now rewrite Hs.
  - rewrite (getPinocchioJointVelocity_independent U1 U2).
    rewrite <- (getPinocchioJointVelocity_prefix Mapping d state1 input1).
    rewrite <- (getPinocchioJointVelocity_prefix Mapping d state2 input2).
    now rewrite Hs, Hu.
  - rewrite (getPinocchioJointAcceleration_independent U1 U2).
    rewrite <- (getPinocchioJointAcceleration_prefix Mapping d state1 input1).
    rewrite <- (getPinocchioJointAcceleration_prefix Mapping d state2 input2).
    now rewrite Hs, Hu.
  - rewrite (getOcs2Jacobian_independent U1 U2).
    rewrite <- (getOcs2Jacobian_prefix Mapping d state1).
    rewrite <- (getOcs2Jacobian_prefix Mapping d state2).
    now rewrite Hs.
Qed.

End StorageClaims.

(** ** The theorems at concrete arguments *)

Lemma system_jacobian_layout_witness :
  exists dfdx dfdu,
    @SystemPinocchioMapping.getOcs2Jacobian Z Z_zero stale
      integrator_robot sample_dims sample_state sample_Jq sample_Jv
    = Some (dfdx, dfdu)
    /\ cols dfdx = 21
    /\ cols dfdu = 1
    /\ 1 = 1
    /\ leftCols 3 dfdx = Some (mkMat 2 [[1; 11]; [21; 31]; [0; 0]]%Z)
    /\ leftCols 1 dfdu = Some (mkMat 2 [[0; 0]]%Z)
    /\ (forall i, i < 2 ->
          exists x_obs Jq_pin_obs Jv_pin_obs dfdx_obs dfdu_obs,
            segment (3 + 9 * i) 9 sample_state = Some x_obs
            /\ middleCols (1 + 3 * i) 3 sample_Jq = Some Jq_pin_obs
            /\ middleCols (1 + 3 * i) 3 sample_Jv = Some Jv_pin_obs
            /\ PinocchioStateInputMapping.getOcs2Jacobian
                 (@OBSTACLE_PINOCCHIO_MAPPING Z Z_zero stale)
                 x_obs Jq_pin_obs Jv_pin_obs
               = Some (dfdx_obs, dfdu_obs)
            /\ middleCols (3 + 9 * i) 9 dfdx = Some dfdx_obs)
    /\ (exists dfdx_obstacles,
          Forall2 (fun i dfdx_obs =>
                     @obstacle_jacobian Z Z_zero stale
                       sample_dims sample_state sample_Jq sample_Jv i
                     = Some dfdx_obs)
            [0; 1] dfdx_obstacles
          /\ perform_writes (@MatX_uninit Z stale 2 21)
               (combine [(0, 3); (3, 9); (12, 9)]
                  (mkMat 2 [[1; 11]; [21; 31]; [0; 0]]%Z :: dfdx_obstacles))
             = Some dfdx)
    /\ (forall c, c < 21 ->
          length (filter (in_block c) (dfdx_writes sample_dims)) = 1).
Proof.
  apply (@system_jacobian_layout Z Z_zero stale integrator_robot sample_dims
           sample_state sample_Jq sample_Jv
           (mkMat 2 [[1; 11]]%Z) (mkMat 2 [[21; 31]]%Z)
           (mkMat 2 [[1; 11]; [21; 31]; [0; 0]]%Z) (mkMat 2 [[0; 0]]%Z));
    reflexivity.
Defined.

Lemma no_obstacles_is_robot_mapping_witness :
  @SystemPinocchioMapping.getPinocchioJointPosition Z Z_zero stale
    integrator_robot alone_dims alone_state
  = Some [10%Z]
  /\ @SystemPinocchioMapping.getPinocchioJointVelocity Z Z_zero stale
       integrator_robot alone_dims alone_state sample_input
     = Some [20%Z]
  /\ @SystemPinocchioMapping.getPinocchioJointAcceleration Z Z_zero stale
       integrator_robot alone_dims alone_state sample_input
     = Some [30%Z]
  /\ @SystemPinocchioMapping.getOcs2Jacobian Z Z_zero stale
       integrator_robot alone_dims alone_state alone_Jq alone_Jv
     = Some (mkMat 2 [[1; 2]; [3; 4]; [0; 0]]%Z, mkMat 2 [[0; 0]]%Z).
Proof.
  apply (@no_obstacles_is_robot_mapping Z Z_zero stale integrator_robot
           alone_dims alone_state sample_input alone_Jq alone_Jv);
    try reflexivity.
  - intros q_robot E. vm_compute in E. now injection E as <-.
  - intros v_robot E. vm_compute in E. now injection E as <-.
  - intros a_robot E. vm_compute in E. now injection E as <-.
  - intros dfdx_robot dfdu_robot E. vm_compute in E.
    injection E as <- <-. repeat split.
Defined.

Lemma system_velocity_acceleration_layout_witness :
  (exists v_pin,
      @SystemPinocchioMapping.getPinocchioJointVelocity Z Z_zero stale
        integrator_robot sample_dims sample_state sample_input
      = Some v_pin
      /\ length v_pin = 1 + 3 * 2
      /\ firstn 1 v_pin = [20%Z]
      /\ forall i, i < 2 ->
           exists x_obs v_obs,
             segment (3 + 9 * i) 9 sample_state = Some x_obs
             /\ PinocchioStateInputMapping.getPinocchioJointVelocity
                  (@OBSTACLE_PINOCCHIO_MAPPING Z Z_zero stale)
                  x_obs (VecZero 3) = Some v_obs
             /\ segment (1 + 3 * i) 3 v_pin = Some v_obs)
  /\ (exists a_pin,
        @SystemPinocchioMapping.getPinocchioJointAcceleration Z Z_zero stale
          integrator_robot sample_dims sample_state sample_input
        = Some a_pin
        /\ length a_pin = 1 + 3 * 2
        /\ firstn 1 a_pin = [30%Z]
        /\ forall i, i < 2 ->
             exists x_obs a_obs,
               segment (3 + 9 * i) 9 sample_state = Some x_obs
               /\ PinocchioStateInputMapping.getPinocchioJointAcceleration
                    (@OBSTACLE_PINOCCHIO_MAPPING Z Z_zero stale)
                    x_obs (VecZero 3) = Some a_obs
               /\ segment (1 + 3 * i) 3 a_pin = Some a_obs).
Proof.
  apply (@system_velocity_acceleration_layout Z Z_zero stale integrator_robot
           sample_dims sample_state sample_input [20%Z] [30%Z]);
    reflexivity.
Defined.

Lemma system_reads_prefixes_witness :
  @SystemPinocchioMapping.getPinocchioJointPosition Z Z_zero stale
    integrator_robot sample_dims (sample_state ++ [77; 78]%Z)
  = @SystemPinocchioMapping.getPinocchioJointPosition Z Z_zero zeroed
      integrator_robot sample_dims (sample_state ++ [99]%Z)
  /\ @SystemPinocchioMapping.getPinocchioJointVelocity Z Z_zero stale
       integrator_robot sample_dims
       (sample_state ++ [77; 78]%Z) [5; 6; 7]%Z
     = @SystemPinocchioMapping.getPinocchioJointVelocity Z Z_zero zeroed
         integrator_robot sample_dims (sample_state ++ [99]%Z) [5; 8]%Z
  /\ @SystemPinocchioMapping.getPinocchioJointAcceleration Z Z_zero stale
       integrator_robot sample_dims
       (sample_state ++ [77; 78]%Z) [5; 6; 7]%Z
     = @SystemPinocchioMapping.getPinocchioJointAcceleration Z Z_zero zeroed
         integrator_robot sample_dims (sample_state ++ [99]%Z) [5; 8]%Z
  /\ @SystemPinocchioMapping.getOcs2Jacobian Z Z_zero stale
       integrator_robot sample_dims
       (sample_state ++ [77; 78]%Z) sample_Jq sample_Jv
     = @SystemPinocchioMapping.getOcs2Jacobian Z Z_zero zeroed
         integrator_robot sample_dims
         (sample_state ++ [99]%Z) sample_Jq sample_Jv.
Proof.
  apply (@system_reads_prefixes Z Z_zero integrator_robot sample_dims
           stale zeroed
           (sample_state ++ [77; 78]%Z) (sample_state ++ [99]%Z)
           [5; 6; 7]%Z [5; 8]%Z sample_Jq sample_Jv);
    reflexivity.
Defined.

Lemma obstacles_interchangeable_witness :
  (@SystemPinocchioMapping.getPinocchioJointPosition Z Z_zero zeroed
     integrator_robot sample_dims (swap_blocks 3 9 2 0 1 sample_state)
   = Some [10; 201; 202; 203; 101; 102; 103]%Z
   /\ forall q_pin,
        @SystemPinocchioMapping.getPinocchioJointPosition Z Z_zero stale
          integrator_robot sample_dims sample_state = Some q_pin ->
        firstn 1 (swap_blocks 1 3 2 0 1 q_pin) = firstn 1 q_pin)
  /\ (@SystemPinocchioMapping.getPinocchioJointVelocity Z Z_zero zeroed
        integrator_robot sample_dims (swap_blocks 3 9 2 0 1 sample_state)
        sample_input
      = Some [20; 204; 205; 206; 104; 105; 106]%Z
      /\ forall v_pin,
           @SystemPinocchioMapping.getPinocchioJointVelocity Z Z_zero stale
             integrator_robot sample_dims sample_state sample_input
           = Some v_pin ->
           firstn 1 (swap_blocks 1 3 2 0 1 v_pin) = firstn 1 v_pin)
  /\ (@SystemPinocchioMapping.getPinocchioJointAcceleration Z Z_zero zeroed
        integrator_robot sample_dims (swap_blocks 3 9 2 0 1 sample_state)
        sample_input
      = Some [30; 207; 208; 209; 107; 108; 109]%Z
      /\ forall a_pin,
           @SystemPinocchioMapping.getPinocchioJointAcceleration Z Z_zero stale
             integrator_robot sample_dims sample_state sample_input
           = Some a_pin ->
           firstn 1 (swap_blocks 1 3 2 0 1 a_pin) = firstn 1 a_pin).
Proof.
  apply (@obstacles_interchangeable Z Z_zero zeroed stale integrator_robot
           sample_dims sample_state sample_input 0 1);
    reflexivity || (simpl; lia).
Defined.

(** The Jacobians of the sample, from storage that holds [1000 + k] in
    cell [k] and from storage that holds zeros. *)
Example jacobian_storage_sample :
  @SystemPinocchioMapping.getOcs2Jacobian Z Z_zero stale
    integrator_robot sample_dims sample_state sample_Jq sample_Jv
  = @SystemPinocchioMapping.getOcs2Jacobian Z Z_zero zeroed
      integrator_robot sample_dims sample_state sample_Jq sample_Jv
  /\ @SystemPinocchioMapping.getOcs2Jacobian Z Z_zero stale
       integrator_robot sample_dims sample_state sample_Jq sample_Jv
     = Some (mkMat 2 [[1; 11]; [21; 31]; [0; 0];
                      [2; 12]; [3; 13]; [4; 14];
                      [22; 32]; [23; 33]; [24; 34];
                      [0; 0]; [0; 0]; [0; 0];
                      [5; 15]; [6; 16]; [7; 17];
                      [25; 35]; [26; 36]; [27; 37];
                      [0; 0]; [0; 0]; [0; 0]]%Z,
             mkMat 2 [[0; 0]]%Z).
Proof.
  split; reflexivity.
Qed.

(** * Further properties of the two mappings *)

(** ** [TripleIntegratorPinocchioMapping] at any dimensions *)

Section TripleIntegratorProperties.
Context {Scalar : Type} `{ScalarZero Scalar} `{Uninit Scalar}.
Variable dims : RobotDimensions.t.
Implicit Types state input pre : VecX Scalar.
Implicit Types Jq Jv : MatX Scalar.

(** X1.  On a state of [q + v + v] entries the position, the velocity and
    the acceleration of [TripleIntegratorPinocchioMapping] are defined, have
    [q], [v] and [v] entries, and laid end to end they are the state. *)
Theorem triple_integrator_partition state input :
  length state
  = RobotDimensions.q dims + RobotDimensions.v dims + RobotDimensions.v dims ->
  exists q_pin v_pin a_pin,
    TripleIntegratorPinocchioMapping.getPinocchioJointPosition dims state
    = Some q_pin
    /\ TripleIntegratorPinocchioMapping.getPinocchioJointVelocity dims
         state input = Some v_pin
    /\ TripleIntegratorPinocchioMapping.getPinocchioJointAcceleration dims
         state input = Some a_pin
    /\ length q_pin = RobotDimensions.q dims
    /\ length v_pin = RobotDimensions.v dims
    /\ length a_pin = RobotDimensions.v dims
    /\ q_pin ++ v_pin ++ a_pin = state.
Proof.
  intros Hlen.
  unfold TripleIntegratorPinocchioMapping.getPinocchioJointPosition,
    TripleIntegratorPinocchioMapping.getPinocchioJointVelocity,
    TripleIntegratorPinocchioMapping.getPinocchioJointAcceleration, tail.
  set (nq := RobotDimensions.q dims) in *.
  set (nv := RobotDimensions.v dims) in *.
  rewrite head_Some by lia.
  destruct (Nat.leb_spec nv (length state)); [|lia].
  rewrite !segment_Some by lia.
  do 3 eexists. repeat apply conj; try reflexivity.
  - rewrite length_firstn. lia.
  - rewrite length_firstn, length_skipn. lia.
  - rewrite length_firstn, length_skipn. lia.
  - replace (length state - nv) with (nv + nq) by lia.
    rewrite <- skipn_skipn.
    rewrite (firstn_all2 (n := nv) (skipn nv (skipn nq state)))
      by (rewrite !length_skipn; lia).
    now rewrite !firstn_skipn.
Qed.

(** X2.  [getPinocchioJointAcceleration] reads the end of the state: on any
    state that ends in [v] entries [a_pin] it returns [a_pin], however many
    entries come before, and it is undefined on every state of fewer than
    [v] entries. *)
Theorem triple_integrator_acceleration_is_tail input :
  (forall pre (a_pin : VecX Scalar),
      length a_pin = RobotDimensions.v dims ->
      TripleIntegratorPinocchioMapping.getPinocchioJointAcceleration dims
        (pre ++ a_pin) input = Some a_pin)
  /\ (forall state,
        length state < RobotDimensions.v dims ->
        TripleIntegratorPinocchioMapping.getPinocchioJointAcceleration dims
          state input = None).
Proof.
  unfold TripleIntegratorPinocchioMapping.getPinocchioJointAcceleration, tail.
  split.
  - intros pre a_pin Ha. rewrite length_app.
    destruct (Nat.leb_spec (RobotDimensions.v dims)
                (length pre + length a_pin)); [|lia].
    rewrite segment_Some by (rewrite length_app; lia).
    replace (length pre + length a_pin - RobotDimensions.v dims)
      with (length pre) by lia.
    rewrite skipn_exact by reflexivity.
    now rewrite firstn_all2 by lia.
  - intros state Hshort.
    destruct (Nat.leb_spec (RobotDimensions.v dims) (length state));
      [lia | reflexivity].
Qed.

(** X3.  With [v > 0], [getOcs2Jacobian] of [TripleIntegratorPinocchioMapping]
    is defined exactly when [Jv] has as many rows as [Jq], whatever their
    numbers of columns; it then returns [dfdx = [Jq | Jv | Zero(rows, v)]],
    of [Jq.cols() + Jv.cols() + v] columns, and [dfdu = Zero(rows, u)]. *)
Theorem triple_integrator_jacobian_defined_iff
    state Jq Jv (dfdx dfdu : MatX Scalar) :
  0 < RobotDimensions.v dims ->
  (TripleIntegratorPinocchioMapping.getOcs2Jacobian dims state Jq Jv
   = Some (dfdx, dfdu)
   <-> rows Jv = rows Jq
       /\ dfdx = hcat (hcat Jq Jv) (Zero (rows Jq) (RobotDimensions.v dims))
       /\ dfdu = Zero (rows Jq) (RobotDimensions.u dims))
  /\ cols (hcat (hcat Jq Jv) (Zero (rows Jq) (RobotDimensions.v dims)))
     = cols Jq + cols Jv + RobotDimensions.v dims.
Proof.
  intros Hv. split.
  - destruct (Nat.eq_dec (rows Jv) (rows Jq)) as [Hr|Hr].
    + rewrite triple_integrator_jacobian by assumption. split.
      * intros [= <- <-]. auto.
      * intros (_ & -> & ->). reflexivity.
    + rewrite triple_integrator_jacobian_mismatch by assumption. split.
      * discriminate.
      * intros (Hr' & _). contradiction.
  - unfold cols, hcat, Zero. cbn [coldata].
    rewrite !length_app, repeat_length. lia.
Qed.
End TripleIntegratorProperties.

Lemma triple_integrator_partition_witness :
  exists q_pin v_pin a_pin,
    TripleIntegratorPinocchioMapping.getPinocchioJointPosition wide_dims
      [1; 2; 3; 4; 5; 6]%Z = Some q_pin
    /\ TripleIntegratorPinocchioMapping.getPinocchioJointVelocity wide_dims
         [1; 2; 3; 4; 5; 6]%Z sample_input = Some v_pin
    /\ TripleIntegratorPinocchioMapping.getPinocchioJointAcceleration wide_dims
         [1; 2; 3; 4; 5; 6]%Z sample_input = Some a_pin
    /\ length q_pin = 2 /\ length v_pin = 2 /\ length a_pin = 2
    /\ q_pin ++ v_pin ++ a_pin = [1; 2; 3; 4; 5; 6]%Z.
Proof.
  apply (@triple_integrator_partition Z wide_dims
           [1; 2; 3; 4; 5; 6]%Z sample_input).
  reflexivity.
Defined.

Lemma triple_integrator_acceleration_is_tail_witness :
  TripleIntegratorPinocchioMapping.getPinocchioJointAcceleration wide_dims
    wide_state sample_input = Some [6; 7]%Z
  /\ TripleIntegratorPinocchioMapping.getPinocchioJointAcceleration wide_dims
       [1%Z] sample_input = None
  /\ TripleIntegratorPinocchioMapping.getPinocchioJointAcceleration
       (RobotDimensions.make 2 0 2 1) wide_state sample_input = Some [].
Proof.
  split; [|split].
  - apply (proj1 (@triple_integrator_acceleration_is_tail Z wide_dims
                    sample_input) [1; 2; 3; 4; 5]%Z [6; 7]%Z).
    reflexivity.
  - apply (proj2 (@triple_integrator_acceleration_is_tail Z wide_dims
                    sample_input) [1%Z]).
    simpl. lia.
  - apply (proj1 (@triple_integrator_acceleration_is_tail Z
                    (RobotDimensions.make 2 0 2 1) sample_input)
             wide_state []).
    reflexivity.
Defined.

Lemma triple_integrator_jacobian_defined_iff_witness :
  (@TripleIntegratorPinocchioMapping.getOcs2Jacobian Z Z_zero stale wide_dims
     wide_state tall_Jq tall_Jv
   = Some (mkMat 2 [[1; 2]; [3; 4]; [5; 6]; [0; 0]; [0; 0]]%Z,
           mkMat 2 [[0; 0]]%Z)
   <-> rows tall_Jv = rows tall_Jq
       /\ mkMat 2 [[1; 2]; [3; 4]; [5; 6]; [0; 0]; [0; 0]]%Z
          = hcat (hcat tall_Jq tall_Jv) (Zero 2 2)
       /\ mkMat 2 [[0; 0]]%Z = Zero 2 1)
  /\ cols (hcat (hcat tall_Jq tall_Jv) (Zero 2 2)) = 2 + 1 + 2.
Proof.
  apply (@triple_integrator_jacobian_defined_iff Z Z_zero stale wide_dims
           wide_state tall_Jq tall_Jv).
  simpl. lia.
Defined.

(** ** [SystemPinocchioMapping]: when its operations are defined *)

Lemma segment_None {A : Type} i n (l : list A) :
  length l < i + n -> segment i n l = None.
Proof.
  intros Hlt. unfold segment.
  destruct (Nat.leb_spec (i + n) (length l)); [lia | reflexivity].
Qed.

(** A loop one of whose turns fails in every state fails. *)
Lemma for_loop_fails {St : Type} (body : nat -> St -> option St) :
  forall n k s i,
    k <= i < k + n -> (forall t, body i t = None) ->
    for_loop n k body s = None.
Proof.
  induction n as [|n IH]; intros k s i Hi Hfail; [lia|].
  simpl. destruct (Nat.eq_dec i k) as [->|Hne].
  - now rewrite Hfail.
  - destruct (body k s) as [s'|]; [|reflexivity].
    simpl. apply IH with (i := i); [lia | exact Hfail].
Qed.

Lemma block_at_firstn {A : Type} off w k m (l : list A) :
  off + k * w + w <= m ->
  block_at off w k (firstn m l) = block_at off w k l.
Proof.
  intros Hle. unfold block_at.
  rewrite skipn_firstn_comm, firstn_firstn. f_equal. lia.
Qed.

Section SystemVectorsDefined.
Context {Scalar : Type} `{ScalarZero Scalar} `{Uninit Scalar}.
Variable Mapping : RobotDimensions.t -> PinocchioStateInputMapping.t Scalar.
Variable d : OptimizationDimensions.t.
Implicit Types state input : VecX Scalar.

Lemma last_obstacle_state_missing state :
  rx d <= length state -> length state < OptimizationDimensions.x d ->
  no d - 1 < no d
  /\ segment (rx d + (no d - 1) * 9) 9 state = None.
Proof.
  unfold OptimizationDimensions.x. intros Hge Hlt.
  split; [lia|]. apply segment_None. lia.
Qed.

Lemma blocks_of_prefix {B : Type} (part : VecX Scalar -> B) state :
  OptimizationDimensions.x d <= length state ->
  map (fun i => part (block_at (rx d) 9 i
                        (firstn (OptimizationDimensions.x d) state)))
      (seq 0 (no d))
  = map (fun i => part (block_at (rx d) 9 i state)) (seq 0 (no d)).
Proof.
  intros Hlen. apply map_ext_in. intros i Hi. apply in_seq in Hi.
  rewrite block_at_firstn; [reflexivity|].
  unfold OptimizationDimensions.x. lia.
Qed.

Lemma robot_state_of_prefix state :
  firstn (rx d) (firstn (OptimizationDimensions.x d) state)
  = firstn (rx d) state.
Proof.
  rewrite firstn_firstn. f_equal. unfold OptimizationDimensions.x. lia.
Qed.

Lemma getPinocchioJointPosition_short state :
  length state < OptimizationDimensions.x d ->
  SystemPinocchioMapping.getPinocchioJointPosition Mapping d state = None.
Proof.
  intros Hlt. unfold SystemPinocchioMapping.getPinocchioJointPosition.
  destruct (Nat.lt_ge_cases (length state) (rx d)) as [Hs|Hs].
  - unfold head. now rewrite segment_None by (simpl; lia).
  - destruct (last_obstacle_state_missing state Hs Hlt) as [Hi Hnone].
    destruct (head _ state) as [x_robot|]; [|reflexivity]. cbn [bind].
    destruct (PinocchioStateInputMapping.getPinocchioJointPosition _ _)
      as [q_robot|]; [|reflexivity]. cbn [bind].
    destruct (set_head _ _ _) as [q_pin|]; [|reflexivity]. cbn [bind].
    apply for_loop_fails with (i := no d - 1); [lia|].
    intros t. now rewrite Hnone.
Qed.

Lemma getPinocchioJointPosition_long state :
  OptimizationDimensions.x d <= length state ->
  SystemPinocchioMapping.getPinocchioJointPosition Mapping d state
  = q_robot <- PinocchioStateInputMapping.getPinocchioJointPosition
                 (Mapping (OptimizationDimensions.robot d))
                 (firstn (rx d) state) ;;
    if length q_robot =? rq d
    then Some (q_robot
               ++ concat (map (fun i => firstn 3 (block_at (rx d) 9 i state))
                              (seq 0 (no d))))
    else None.
Proof.
  intros Hlen.
  rewrite <- getPinocchioJointPosition_prefix.
  rewrite getPinocchioJointPosition_layout by (rewrite length_firstn; lia).
  now rewrite robot_state_of_prefix, (blocks_of_prefix (firstn 3)).
Qed.

Lemma getPinocchioJointVelocity_short state input :
  length state < OptimizationDimensions.x d \/ length input < ru d ->
  SystemPinocchioMapping.getPinocchioJointVelocity Mapping d state input
  = None.
Proof.
  intros Hlt. unfold SystemPinocchioMapping.getPinocchioJointVelocity.
  destruct (Nat.lt_ge_cases (length state) (rx d)) as [Hs|Hs].
  { unfold head at 1. now rewrite segment_None by (simpl; lia). }
  destruct (head _ state) as [x_robot|]; [|reflexivity]. cbn [bind].
  destruct (Nat.lt_ge_cases (length input) (ru d)) as [Hu|Hu].
  { unfold head. now rewrite segment_None by (simpl; lia). }
  destruct Hlt as [Hlt|Hlt]; [|lia].
  destruct (last_obstacle_state_missing state Hs Hlt) as [Hi Hnone].
  destruct (head _ input) as [u_robot|]; [|reflexivity]. cbn [bind].
  destruct (PinocchioStateInputMapping.getPinocchioJointVelocity _ _ _)
    as [v_robot|]; [|reflexivity]. cbn [bind].
  destruct (set_head _ _ _) as [v_pin|]; [|reflexivity]. cbn [bind].
  apply for_loop_fails with (i := no d - 1); [lia|].
  intros t. now rewrite Hnone.
Qed.

Lemma getPinocchioJointVelocity_long state input :
  OptimizationDimensions.x d <= length state -> ru d <= length input ->
  SystemPinocchioMapping.getPinocchioJointVelocity Mapping d state input
  = v_robot <- PinocchioStateInputMapping.getPinocchioJointVelocity
                 (Mapping (OptimizationDimensions.robot d))
                 (firstn (rx d) state) (firstn (ru d) input) ;;
    if length v_robot =? rv d
    then Some (v_robot
               ++ concat (map (fun i =>
                                 firstn 3 (skipn 3 (block_at (rx d) 9 i state)))
                              (seq 0 (no d))))
    else None.
Proof.
  intros Hlen Hin.
  rewrite <- getPinocchioJointVelocity_prefix.
  rewrite getPinocchioJointVelocity_layout
    by (rewrite length_firstn; unfold OptimizationDimensions.u; lia).
  now rewrite robot_state_of_prefix,
    (blocks_of_prefix (fun b => firstn 3 (skipn 3 b))).
Qed.

Lemma getPinocchioJointAcceleration_short state input :
  length state < OptimizationDimensions.x d \/ length input < ru d ->
  SystemPinocchioMapping.getPinocchioJointAcceleration Mapping d state input
  = None.
Proof.
  intros Hlt. unfold SystemPinocchioMapping.getPinocchioJointAcceleration.
  destruct (Nat.lt_ge_cases (length state) (rx d)) as [Hs|Hs].
  { unfold head at 1. now rewrite segment_None by (simpl; lia). }
  destruct (head _ state) as [x_robot|]; [|reflexivity]. cbn [bind].
  destruct (Nat.lt_ge_cases (length input) (ru d)) as [Hu|Hu].
  { unfold head. now rewrite segment_None by (simpl; lia). }
  destruct Hlt as [Hlt|Hlt]; [|lia].
  destruct (last_obstacle_state_missing state Hs Hlt) as [Hi Hnone].
  destruct (head _ input) as [u_robot|]; [|reflexivity]. cbn [bind].
  destruct (PinocchioStateInputMapping.getPinocchioJointAcceleration _ _ _)
    as [a_robot|]; [|reflexivity]. cbn [bind].
  destruct (set_head _ _ _) as [a_pin|]; [|reflexivity]. cbn [bind].
  apply for_loop_fails with (i := no d - 1); [lia|].
  intros t. now rewrite Hnone.
Qed.

Lemma getPinocchioJointAcceleration_long state input :
  OptimizationDimensions.x d <= length state -> ru d <= length input ->
  SystemPinocchioMapping.getPinocchioJointAcceleration Mapping d state input
  = a_robot <- PinocchioStateInputMapping.getPinocchioJointAcceleration
                 (Mapping (OptimizationDimensions.robot d))
                 (firstn (rx d) state) (firstn (ru d) input) ;;
    if length a_robot =? rv d
    then Some (a_robot
               ++ concat (map (fun i =>
                                 firstn 3 (skipn 6 (block_at (rx d) 9 i state)))
                              (seq 0 (no d))))
    else None.
Proof.
  intros Hlen Hin.
  rewrite <- getPinocchioJointAcceleration_prefix.
  rewrite getPinocchioJointAcceleration_layout
    by (rewrite length_firstn; unfold OptimizationDimensions.u; lia).
  now rewrite robot_state_of_prefix,
    (blocks_of_prefix (fun b => firstn 3 (skipn 6 b))).
Qed.
End SystemVectorsDefined.

Section SystemVectorProperties.
Context {Scalar : Type} `{ScalarZero Scalar} `{Uninit Scalar}.
Variable Mapping : RobotDimensions.t -> PinocchioStateInputMapping.t Scalar.
Variable d : OptimizationDimensions.t.
Implicit Types state input : VecX Scalar.

(** X4.  [getPinocchioJointPosition] is defined exactly when the state has
    at least [x()] entries and the robot mapping answers, on the first
    [robot.x] of them, with [robot.q] entries; the result is then the
    robot's answer followed, for each obstacle, by the first three of its
    nine state entries.  A shorter state or a robot answer of another size
    stops at an assertion. *)
Theorem system_position_defined_iff state (q_pin : VecX Scalar) :
  SystemPinocchioMapping.getPinocchioJointPosition Mapping d state
  = Some q_pin
  <-> OptimizationDimensions.x d <= length state
      /\ exists q_robot,
           PinocchioStateInputMapping.getPinocchioJointPosition
             (Mapping (OptimizationDimensions.robot d)) (firstn (rx d) state)
           = Some q_robot
           /\ length q_robot = rq d
           /\ q_pin
              = q_robot
                ++ concat (map (fun i => firstn 3 (block_at (rx d) 9 i state))
                               (seq 0 (no d))).
Proof.
  split.
  - intros E.
    destruct (Nat.lt_ge_cases (length state) (OptimizationDimensions.x d))
      as [Hlt|Hge].
    { rewrite getPinocchioJointPosition_short in E by assumption.
      discriminate. }
    split; [exact Hge|].
    rewrite getPinocchioJointPosition_long in E by assumption.
    destruct (PinocchioStateInputMapping.getPinocchioJointPosition _ _)
      as [q_robot|]; [|discriminate]. cbn [bind] in E.
    destruct (Nat.eqb_spec (length q_robot) (rq d)); [|discriminate].
    injection E as <-. now exists q_robot.
  - intros (Hge & q_robot & Hq & Hl & ->).
    rewrite getPinocchioJointPosition_long, Hq by assumption. cbn [bind].
    now rewrite (proj2 (Nat.eqb_eq _ _) Hl).
Qed.

(** X5.  [getPinocchioJointVelocity] is defined exactly when the state has
    at least [x()] entries, the input at least [robot.u], and the robot
    mapping answers, on the first [robot.x] and [robot.u] of them, with
    [robot.v] entries; the result is then the robot's answer followed, for
    each obstacle, by entries 3 to 5 of its nine state entries. *)
Theorem system_velocity_defined_iff state input (v_pin : VecX Scalar) :
  SystemPinocchioMapping.getPinocchioJointVelocity Mapping d state input
  = Some v_pin
  <-> OptimizationDimensions.x d <= length state
      /\ ru d <= length input
      /\ exists v_robot,
           PinocchioStateInputMapping.getPinocchioJointVelocity
             (Mapping (OptimizationDimensions.robot d))
             (firstn (rx d) state) (firstn (ru d) input)
           = Some v_robot
           /\ length v_robot = rv d
           /\ v_pin
              = v_robot
                ++ concat (map (fun i =>
                                  firstn 3
                                    (skipn 3 (block_at (rx d) 9 i state)))
                               (seq 0 (no d))).
Proof.
  split.
  - intros E.
    destruct (Nat.lt_ge_cases (length state) (OptimizationDimensions.x d))
      as [Hlt|Hge].
    { rewrite getPinocchioJointVelocity_short in E by now left.
      discriminate. }
    destruct (Nat.lt_ge_cases (length input) (ru d)) as [Hlt|Hin].
    { rewrite getPinocchioJointVelocity_short in E by now right.
      discriminate. }
    split; [exact Hge|]. split; [exact Hin|].
    rewrite getPinocchioJointVelocity_long in E by assumption.
    destruct (PinocchioStateInputMapping.getPinocchioJointVelocity _ _ _)
      as [v_robot|]; [|discriminate]. cbn [bind] in E.
    destruct (Nat.eqb_spec (length v_robot) (rv d)); [|discriminate].
    injection E as <-. now exists v_robot.
  - intros (Hge & Hin & v_robot & Hv & Hl & ->).
    rewrite getPinocchioJointVelocity_long, Hv by assumption. cbn [bind].
    now rewrite (proj2 (Nat.eqb_eq _ _) Hl).
Qed.

(** X6.  [getPinocchioJointAcceleration] is defined exactly when the state
    has at least [x()] entries, the input at least [robot.u], and the robot
    mapping answers with [robot.v] entries; the result is then the robot's
    answer followed, for each obstacle, by entries 6 to 8 of its nine state
    entries. *)
Theorem system_acceleration_defined_iff state input (a_pin : VecX Scalar) :
  SystemPinocchioMapping.getPinocchioJointAcceleration Mapping d state input
  = Some a_pin
  <-> OptimizationDimensions.x d <= length state
      /\ ru d <= length input
      /\ exists a_robot,
           PinocchioStateInputMapping.getPinocchioJointAcceleration
             (Mapping (OptimizationDimensions.robot d))
             (firstn (rx d) state) (firstn (ru d) input)
           = Some a_robot
           /\ length a_robot = rv d
           /\ a_pin
              = a_robot
                ++ concat (map (fun i =>
                                  firstn 3
                                    (skipn 6 (block_at (rx d) 9 i state)))
                               (seq 0 (no d))).
Proof.
  split.
  - intros E.
    destruct (Nat.lt_ge_cases (length state) (OptimizationDimensions.x d))
      as [Hlt|Hge].
    { rewrite getPinocchioJointAcceleration_short in E by now left.
      discriminate. }
    destruct (Nat.lt_ge_cases (length input) (ru d)) as [Hlt|Hin].
    { rewrite getPinocchioJointAcceleration_short in E by now right.
      discriminate. }
    split; [exact Hge|]. split; [exact Hin|].
    rewrite getPinocchioJointAcceleration_long in E by assumption.
    destruct (PinocchioStateInputMapping.getPinocchioJointAcceleration _ _ _)
      as [a_robot|]; [|discriminate]. cbn [bind] in E.
    destruct (Nat.eqb_spec (length a_robot) (rv d)); [|discriminate].
    injection E as <-. now exists a_robot.
  - intros (Hge & Hin & a_robot & Ha & Hl & ->).
    rewrite getPinocchioJointAcceleration_long, Ha by assumption. cbn [bind].
    now rewrite (proj2 (Nat.eqb_eq _ _) Hl).
Qed.
End SystemVectorProperties.

Section SystemJacobianDefined.
Context {Scalar : Type} `{ScalarZero Scalar} `{Uninit Scalar}.
Variable Mapping : RobotDimensions.t -> PinocchioStateInputMapping.t Scalar.
Variable d : OptimizationDimensions.t.
Implicit Types state : VecX Scalar.
Implicit Types Jq_pin Jv_pin dfdx_robot dfdu_robot : MatX Scalar.

Lemma middleCols_rows s n (M N : MatX Scalar) :
  middleCols s n M = Some N -> rows N = rows M.
Proof.
  unfold middleCols. destruct (segment s n (coldata M)); [|discriminate].
  now intros [= <-].
Qed.

Lemma middleCols_firstn s n m (M : MatX Scalar) :
  s + n <= m ->
  middleCols s n (mkMat (rows M) (firstn m (coldata M))) = middleCols s n M.
Proof.
  intros Hle. unfold middleCols. cbn [coldata rows].
  now rewrite segment_firstn.
Qed.

(** Only the first [q()] columns of [Jq_pin] and the first [v()] columns of
    [Jv_pin] are read. *)
Lemma getOcs2Jacobian_truncate state Jq_pin Jv_pin :
  SystemPinocchioMapping.getOcs2Jacobian Mapping d state
    (mkMat (rows Jq_pin) (firstn (OptimizationDimensions.q d) (coldata Jq_pin)))
    (mkMat (rows Jv_pin) (firstn (OptimizationDimensions.v d) (coldata Jv_pin)))
  = SystemPinocchioMapping.getOcs2Jacobian Mapping d state Jq_pin Jv_pin.
Proof.
  unfold SystemPinocchioMapping.getOcs2Jacobian,
    SystemPinocchioMapping.allocate_jacobians.
  cbn [rows].
  destruct (head (rx d) state) as [x_robot|]; [|reflexivity]. cbn [bind].
  unfold leftCols.
  rewrite !middleCols_firstn
    by (unfold OptimizationDimensions.q, OptimizationDimensions.v; lia).
  destruct (middleCols 0 (rq d) Jq_pin) as [Jq_pin_robot|]; [|reflexivity].
  cbn [bind].
  destruct (middleCols 0 (rv d) Jv_pin) as [Jv_pin_robot|]; [|reflexivity].
  cbn [bind].
  destruct (PinocchioStateInputMapping.getOcs2Jacobian _ _ _ _)
    as [[dfdx_robot dfdu_robot]|]; [|reflexivity]. cbn [bind].
  destruct (set_leftCols (rx d) _ _) as [dfdx|]; [|reflexivity]. cbn [bind].
  destruct (set_leftCols (ru d) _ _) as [dfdu|]; [|reflexivity]. cbn [bind].
  f_equal. apply for_loop_ext. intros i b Hi.
  now rewrite !middleCols_firstn
    by (unfold OptimizationDimensions.q, OptimizationDimensions.v; lia).
Qed.

(** The two robot writes stop at an assertion unless the robot's blocks
    have the shapes [(rows, robot.x)] and [(rows, robot.u)]. *)
Lemma robot_writes_fail {T : Type} r dfdx_robot dfdu_robot
    (k : MatX Scalar -> MatX Scalar -> option T) :
  (rows dfdx_robot =? r) && (cols dfdx_robot =? rx d)
  && (rows dfdu_robot =? r) && (cols dfdu_robot =? ru d) = false ->
  (dfdx <- set_leftCols (rx d)
             (MatX_uninit r (OptimizationDimensions.x d)) dfdx_robot ;;
   dfdu <- set_leftCols (ru d)
             (MatX_uninit r (OptimizationDimensions.u d)) dfdu_robot ;;
   k dfdx dfdu)
  = None.
Proof.
  intros Hshape. unfold set_leftCols.
  rewrite !set_middleCols_spec by (rewrite skipn_0; apply columns_of_uninit).
  rewrite !cols_uninit.
  change (rows (MatX_uninit r (OptimizationDimensions.x d))) with r.
  change (rows (MatX_uninit r (OptimizationDimensions.u d))) with r.
  destruct (rows dfdx_robot =? r), (cols dfdx_robot =? rx d),
    (rows dfdu_robot =? r), (cols dfdu_robot =? ru d);
    try discriminate Hshape;
    rewrite ?andb_false_r; cbn [bind]; try reflexivity;
    destruct (0 + rx d <=? OptimizationDimensions.x d); cbn [andb bind];
    rewrite ?andb_false_r; reflexivity.
Qed.

Lemma getOcs2Jacobian_exact state Jq_pin Jv_pin :
  length state = OptimizationDimensions.x d ->
  cols Jq_pin = OptimizationDimensions.q d ->
  cols Jv_pin = OptimizationDimensions.v d ->
  (0 < no d -> rows Jv_pin = rows Jq_pin) ->
  SystemPinocchioMapping.getOcs2Jacobian Mapping d state Jq_pin Jv_pin
  = ' (dfdx_robot, dfdu_robot) <-
      PinocchioStateInputMapping.getOcs2Jacobian
        (Mapping (OptimizationDimensions.robot d))
        (firstn (rx d) state)
        (mkMat (rows Jq_pin) (firstn (rq d) (coldata Jq_pin)))
        (mkMat (rows Jv_pin) (firstn (rv d) (coldata Jv_pin))) ;;
    if (rows dfdx_robot =? rows Jq_pin) && (cols dfdx_robot =? rx d)
       && (rows dfdu_robot =? rows Jq_pin) && (cols dfdu_robot =? ru d)
    then Some (mkMat (rows Jq_pin)
                 (coldata dfdx_robot
                  ++ concat (map (obstacle_columns d Jq_pin Jv_pin)
                                 (seq 0 (no d)))),
               dfdu_robot)
    else None.
Proof.
  intros Hlen Hq Hv Hr.
  destruct (PinocchioStateInputMapping.getOcs2Jacobian _ _ _ _)
    as [[dfdx_robot dfdu_robot]|] eqn:E; cbn [bind].
  - destruct ((rows dfdx_robot =? rows Jq_pin) && (cols dfdx_robot =? rx d)
              && (rows dfdu_robot =? rows Jq_pin)
              && (cols dfdu_robot =? ru d)) eqn:Hshape.
    + rewrite !andb_true_iff, !Nat.eqb_eq in Hshape.
      destruct Hshape as [[[Hxr Hxc] Hur] Huc].
      now apply getOcs2Jacobian_layout.
    + unfold SystemPinocchioMapping.getOcs2Jacobian,
        SystemPinocchioMapping.allocate_jacobians,
        SystemPinocchioMapping.robot_mapping_.
      unfold OptimizationDimensions.x in Hlen.
      unfold OptimizationDimensions.q in Hq.
      unfold OptimizationDimensions.v in Hv.
      rewrite head_Some by lia. cbn [bind]. unfold leftCols.
      rewrite !middleCols_Some by lia. cbn [bind]. rewrite !skipn_0, E.
      cbn [bind]. now apply robot_writes_fail.
  - unfold SystemPinocchioMapping.getOcs2Jacobian,
      SystemPinocchioMapping.allocate_jacobians,
      SystemPinocchioMapping.robot_mapping_.
    unfold OptimizationDimensions.x in Hlen.
    unfold OptimizationDimensions.q in Hq.
    unfold OptimizationDimensions.v in Hv.
    rewrite head_Some by lia. cbn [bind]. unfold leftCols.
    rewrite !middleCols_Some by lia. cbn [bind]. now rewrite !skipn_0, E.
Qed.
Lemma obstacle_columns_truncate Jq_pin Jv_pin i :
  i < no d ->
  obstacle_columns d
    (mkMat (rows Jq_pin) (firstn (OptimizationDimensions.q d) (coldata Jq_pin)))
    (mkMat (rows Jv_pin) (firstn (OptimizationDimensions.v d) (coldata Jv_pin)))
    i
  = obstacle_columns d Jq_pin Jv_pin i.
Proof.
  intros Hi. unfold obstacle_columns. cbn [rows coldata].
  now rewrite !block_at_firstn
    by (unfold OptimizationDimensions.q, OptimizationDimensions.v; lia).
Qed.

Lemma getOcs2Jacobian_long state Jq_pin Jv_pin :
  OptimizationDimensions.x d <= length state ->
  OptimizationDimensions.q d <= cols Jq_pin ->
  OptimizationDimensions.v d <= cols Jv_pin ->
  (0 < no d -> rows Jv_pin = rows Jq_pin) ->
  SystemPinocchioMapping.getOcs2Jacobian Mapping d state Jq_pin Jv_pin
  = ' (dfdx_robot, dfdu_robot) <-
      PinocchioStateInputMapping.getOcs2Jacobian
        (Mapping (OptimizationDimensions.robot d))
        (firstn (rx d) state)
        (mkMat (rows Jq_pin) (firstn (rq d) (coldata Jq_pin)))
        (mkMat (rows Jv_pin) (firstn (rv d) (coldata Jv_pin))) ;;
    if (rows dfdx_robot =? rows Jq_pin) && (cols dfdx_robot =? rx d)
       && (rows dfdu_robot =? rows Jq_pin) && (cols dfdu_robot =? ru d)
    then Some (mkMat (rows Jq_pin)
                 (coldata dfdx_robot
                  ++ concat (map (obstacle_columns d Jq_pin Jv_pin)
                                 (seq 0 (no d)))),
               dfdu_robot)
    else None.
Proof.
  intros Hlen Hq Hv Hr.
  rewrite <- getOcs2Jacobian_prefix, <- getOcs2Jacobian_truncate.
  rewrite getOcs2Jacobian_exact;
    [ | rewrite length_firstn; lia
      | unfold cols in *; cbn [coldata]; rewrite length_firstn; lia
      | unfold cols in *; cbn [coldata]; rewrite length_firstn; lia
      | exact Hr ].
  cbn [rows coldata].
  rewrite robot_state_of_prefix, !firstn_firstn.
  replace (Nat.min (rq d) (OptimizationDimensions.q d)) with (rq d)
    by (unfold OptimizationDimensions.q; lia).
  replace (Nat.min (rv d) (OptimizationDimensions.v d)) with (rv d)
    by (unfold OptimizationDimensions.v; lia).
  destruct (PinocchioStateInputMapping.getOcs2Jacobian _ _ _ _)
    as [[dfdx_robot dfdu_robot]|]; [|reflexivity]. cbn [bind].
  destruct ((rows dfdx_robot =? rows Jq_pin) && _ && _ && _);
    [|reflexivity].
  do 5 f_equal. apply map_ext_in. intros i Hi. apply in_seq in Hi.
  apply obstacle_columns_truncate. lia.
Qed.

Lemma getOcs2Jacobian_short_state state Jq_pin Jv_pin :
  length state < OptimizationDimensions.x d ->
  SystemPinocchioMapping.getOcs2Jacobian Mapping d state Jq_pin Jv_pin = None.
Proof.
  intros Hlt. unfold SystemPinocchioMapping.getOcs2Jacobian,
    SystemPinocchioMapping.allocate_jacobians.
  destruct (Nat.lt_ge_cases (length state) (rx d)) as [Hs|Hs].
  { unfold head. now rewrite segment_None by (simpl; lia). }
  destruct (last_obstacle_state_missing d state Hs Hlt) as [Hi Hnone].
  destruct (head _ state) as [x_robot|]; [|reflexivity]. cbn [bind].
  destruct (leftCols (rq d) Jq_pin) as [Jq_pin_robot|]; [|reflexivity].
  cbn [bind].
  destruct (leftCols (rv d) Jv_pin) as [Jv_pin_robot|]; [|reflexivity].
  cbn [bind].
  destruct (PinocchioStateInputMapping.getOcs2Jacobian _ _ _ _)
    as [[dfdx_robot dfdu_robot]|]; [|reflexivity]. cbn [bind].
  destruct (set_leftCols (rx d) _ _) as [dfdx|]; [|reflexivity]. cbn [bind].
  destruct (set_leftCols (ru d) _ _) as [dfdu|]; [|reflexivity]. cbn [bind].
  erewrite for_loop_fails with (i := no d - 1); [reflexivity | lia |].
  intros t. now rewrite Hnone.
Qed.

Lemma getOcs2Jacobian_narrow state Jq_pin Jv_pin :
  cols Jq_pin < OptimizationDimensions.q d
  \/ cols Jv_pin < OptimizationDimensions.v d ->
  SystemPinocchioMapping.getOcs2Jacobian Mapping d state Jq_pin Jv_pin = None.
Proof.
  unfold OptimizationDimensions.q, OptimizationDimensions.v. intros Hlt.
  unfold SystemPinocchioMapping.getOcs2Jacobian,
    SystemPinocchioMapping.allocate_jacobians.
  destruct (head _ state) as [x_robot|]; [|reflexivity]. cbn [bind].
  destruct (Nat.lt_ge_cases (cols Jq_pin) (rq d)) as [Hq|Hq].
  { unfold leftCols at 1, middleCols.
    now rewrite segment_None by (unfold cols in Hq; simpl; lia). }
  destruct (leftCols (rq d) Jq_pin) as [Jq_pin_robot|]; [|reflexivity].
  cbn [bind].
  destruct (Nat.lt_ge_cases (cols Jv_pin) (rv d)) as [Hv|Hv].
  { unfold leftCols, middleCols.
    now rewrite segment_None by (unfold cols in Hv; simpl; lia). }
  destruct (leftCols (rv d) Jv_pin) as [Jv_pin_robot|]; [|reflexivity].
  cbn [bind].
  destruct (PinocchioStateInputMapping.getOcs2Jacobian _ _ _ _)
    as [[dfdx_robot dfdu_robot]|]; [|reflexivity]. cbn [bind].
  destruct (set_leftCols (rx d) _ _) as [dfdx|]; [|reflexivity]. cbn [bind].
  destruct (set_leftCols (ru d) _ _) as [dfdu|]; [|reflexivity]. cbn [bind].
  erewrite for_loop_fails with (i := no d - 1); [reflexivity | lia |].
  intros t.
  destruct (segment (rx d + (no d - 1) * 9) 9 state) as [x_obs|];
    [|reflexivity]. cbn [bind].
  destruct Hlt as [Hlt|Hlt].
  - unfold middleCols at 1.
    now rewrite segment_None by (unfold cols in Hlt; lia).
  - destruct (middleCols (rq d + (no d - 1) * 3) 3 Jq_pin) as [Jq_pin_obs|];
      [|reflexivity]. cbn [bind].
    unfold middleCols.
    now rewrite segment_None by (unfold cols in Hlt; lia).
Qed.

Lemma getOcs2Jacobian_rows_mismatch state Jq_pin Jv_pin :
  0 < no d -> rows Jv_pin <> rows Jq_pin ->
  SystemPinocchioMapping.getOcs2Jacobian Mapping d state Jq_pin Jv_pin = None.
Proof.
  intros Ho Hr. unfold SystemPinocchioMapping.getOcs2Jacobian,
    SystemPinocchioMapping.allocate_jacobians.
  destruct (head _ state) as [x_robot|]; [|reflexivity]. cbn [bind].
  destruct (leftCols (rq d) Jq_pin) as [Jq_pin_robot|]; [|reflexivity].
  cbn [bind].
  destruct (leftCols (rv d) Jv_pin) as [Jv_pin_robot|]; [|reflexivity].
  cbn [bind].
  destruct (PinocchioStateInputMapping.getOcs2Jacobian _ _ _ _)
    as [[dfdx_robot dfdu_robot]|]; [|reflexivity]. cbn [bind].
  destruct (set_leftCols (rx d) _ _) as [dfdx|]; [|reflexivity]. cbn [bind].
  destruct (set_leftCols (ru d) _ _) as [dfdu|]; [|reflexivity]. cbn [bind].
  erewrite for_loop_fails with (i := 0); [reflexivity | lia |].
  intros t.
  destruct (segment (rx d + 0 * 9) 9 state) as [x_obs|]; [|reflexivity].
  cbn [bind].
  destruct (middleCols (rq d + 0 * 3) 3 Jq_pin) as [Jq_pin_obs|] eqn:EJq;
    [|reflexivity]. cbn [bind].
  destruct (middleCols (rv d + 0 * 3) 3 Jv_pin) as [Jv_pin_obs|] eqn:EJv;
    [|reflexivity]. cbn [bind].
  cbn [PinocchioStateInputMapping.getOcs2Jacobian OBSTACLE_PINOCCHIO_MAPPING
       TripleIntegratorPinocchioMapping.mapping].
  rewrite triple_integrator_jacobian_mismatch; [reflexivity | simpl; lia |].
  now rewrite (middleCols_rows _ _ _ EJq), (middleCols_rows _ _ _ EJv).
Qed.
End SystemJacobianDefined.

Section SystemJacobianProperties.
Context {Scalar : Type} `{ScalarZero Scalar} `{Uninit Scalar}.
Variable Mapping : RobotDimensions.t -> PinocchioStateInputMapping.t Scalar.
Variable d : OptimizationDimensions.t.
Implicit Types state : VecX Scalar.
Implicit Types Jq_pin Jv_pin dfdx dfdu : MatX Scalar.

(** X7.  [getOcs2Jacobian] is defined exactly when the state has at least
    [x()] entries, [Jq_pin] at least [q()] columns, [Jv_pin] at least [v()]
    columns and, if there is an obstacle, as many rows as [Jq_pin], and the
    robot mapping answers, on the first [robot.x] entries and the leftmost
    [robot.q] and [robot.v] columns, with blocks of shapes [(rows, robot.x)]
    and [(rows, robot.u)].  Then [dfdx] has the rows of [Jq_pin] and is the
    robot's block followed by nine columns per obstacle, and [dfdu] is the
    robot's block.  Anything else stops at an assertion. *)
Theorem system_jacobian_defined_iff state Jq_pin Jv_pin dfdx dfdu :
  SystemPinocchioMapping.getOcs2Jacobian Mapping d state Jq_pin Jv_pin
  = Some (dfdx, dfdu)
  <-> OptimizationDimensions.x d <= length state
      /\ OptimizationDimensions.q d <= cols Jq_pin
      /\ OptimizationDimensions.v d <= cols Jv_pin
      /\ (0 < no d -> rows Jv_pin = rows Jq_pin)
      /\ exists dfdx_robot,
           PinocchioStateInputMapping.getOcs2Jacobian
             (Mapping (OptimizationDimensions.robot d))
             (firstn (rx d) state)
             (mkMat (rows Jq_pin) (firstn (rq d) (coldata Jq_pin)))
             (mkMat (rows Jv_pin) (firstn (rv d) (coldata Jv_pin)))
           = Some (dfdx_robot, dfdu)
           /\ (rows dfdx_robot = rows Jq_pin /\ cols dfdx_robot = rx d)
           /\ (rows dfdu = rows Jq_pin /\ cols dfdu = ru d)
           /\ dfdx
              = mkMat (rows Jq_pin)
                  (coldata dfdx_robot
                   ++ concat (map (obstacle_columns d Jq_pin Jv_pin)
                                  (seq 0 (no d)))).
Proof.
  split.
  - intros E.
    destruct (Nat.lt_ge_cases (length state) (OptimizationDimensions.x d))
      as [Hlt|Hlen].
    { rewrite getOcs2Jacobian_short_state in E by assumption.
      discriminate. }
    destruct (Nat.lt_ge_cases (cols Jq_pin) (OptimizationDimensions.q d))
      as [Hlt|Hq].
    { rewrite getOcs2Jacobian_narrow in E by now left. discriminate. }
    destruct (Nat.lt_ge_cases (cols Jv_pin) (OptimizationDimensions.v d))
      as [Hlt|Hv].
    { rewrite getOcs2Jacobian_narrow in E by now right. discriminate. }
    assert (Hr : 0 < no d -> rows Jv_pin = rows Jq_pin).
    { intros Ho. destruct (Nat.eq_dec (rows Jv_pin) (rows Jq_pin))
        as [Hr|Hr]; [exact Hr|].
      rewrite getOcs2Jacobian_rows_mismatch in E by assumption.
      discriminate. }
    repeat (split; [assumption|]).
    rewrite getOcs2Jacobian_long in E by assumption.
    destruct (PinocchioStateInputMapping.getOcs2Jacobian _ _ _ _)
      as [[dfdx_robot dfdu_robot]|]; [|discriminate]. cbn [bind] in E.
    destruct ((rows dfdx_robot =? rows Jq_pin) && (cols dfdx_robot =? rx d)
              && (rows dfdu_robot =? rows Jq_pin)
              && (cols dfdu_robot =? ru d)) eqn:Hshape; [|discriminate].
    rewrite !andb_true_iff, !Nat.eqb_eq in Hshape.
    destruct Hshape as [[[Hxr Hxc] Hur] Huc].
    injection E as <- <-. exists dfdx_robot. auto.
  - intros (Hlen & Hq & Hv & Hr & dfdx_robot & Hrobot
            & [Hxr Hxc] & [Hur Huc] & ->).
    rewrite getOcs2Jacobian_long, Hrobot by assumption. cbn [bind].
    now rewrite Hxr, Hxc, Hur, Huc, !Nat.eqb_refl.
Qed.
End SystemJacobianProperties.

(** ** The two classes together: a triple-integrator robot and obstacles *)

Section BlockDecomposition.
Context {A : Type}.
Implicit Types l b : list A.

(** A list of [n] blocks behind [off] entries is its first [off] entries
    followed by its blocks. *)
Lemma blocks_decompose off w :
  forall n l,
    length l = off + n * w ->
    firstn off l ++ concat (map (fun k => block_at off w k l) (seq 0 n)) = l.
Proof.
  intros n l Hlen.
  transitivity (firstn off l ++ skipn off l); [f_equal | apply firstn_skipn].
  assert (Hrest : length (skipn off l) = n * w)
    by (rewrite length_skipn; lia).
  unfold block_at.
  rewrite (map_ext _ (fun k => firstn w (skipn (k * w) (skipn off l))))
    by (intros k; rewrite skipn_skipn; do 2 f_equal; lia).
  generalize dependent (skipn off l). clear l Hlen.
  induction n as [|n IH]; intros l Hlen.
  - destruct l; [reflexivity | discriminate].
  - cbn [seq map concat]. rewrite <- seq_shift, map_map.
    rewrite (map_ext _ (fun k => firstn w (skipn (k * w) (skipn w l))))
      by (intros k; rewrite skipn_skipn; do 2 f_equal; lia).
    rewrite IH by (rewrite length_skipn; simpl in Hlen; lia).
    simpl. apply firstn_skipn.
Qed.

Lemma block_at_app_left off w k l b :
  off + k * w + w <= length l ->
  block_at off w k (l ++ b) = block_at off w k l.
Proof.
  intros Hle. unfold block_at.
  rewrite skipn_app, firstn_app, length_skipn.
  replace (w - (length l - (off + k * w))) with 0 by lia.
  simpl. apply app_nil_r.
Qed.

Lemma block_at_app_right off w k l b :
  length l = off + k * w -> length b = w ->
  block_at off w k (l ++ b) = b.
Proof.
  intros Hl Hb. unfold block_at.
  rewrite skipn_exact by exact Hl. apply firstn_all2. lia.
Qed.

Lemma concat_repeat (z : A) m (ks : list nat) :
  concat (map (fun _ => repeat z m) ks) = repeat z (length ks * m).
Proof.
  induction ks as [|k ks IH]; [reflexivity|].
  simpl. now rewrite IH, repeat_app.
Qed.

(** Three thirds of a list of [3 w] entries. *)
Lemma thirds w (x y z rest : list A) :
  length x = w -> length y = w -> length z = w ->
  firstn w (x ++ y ++ z ++ rest) = x
  /\ firstn w (skipn w (x ++ y ++ z ++ rest)) = y
  /\ firstn w (skipn (w + w) (x ++ y ++ z ++ rest)) = z.
Proof.
  intros Hx Hy Hz. repeat split.
  - now apply firstn_exact.
  - rewrite skipn_exact by exact Hx. now apply firstn_exact.
  - replace (w + w) with (w + w) by lia.
    rewrite <- skipn_skipn, skipn_exact by exact Hx.
    rewrite skipn_exact by exact Hy. now apply firstn_exact.
Qed.
End BlockDecomposition.

Section PartsLemmas.
Context {A : Type}.

Lemma three_parts a b c (l : list A) :
  length l = a + b + c ->
  firstn a l ++ firstn b (skipn a l) ++ firstn c (skipn (a + b) l) = l.
Proof.
  intros Hlen.
  replace (a + b) with (b + a) by lia. rewrite <- skipn_skipn.
  rewrite (firstn_all2 (n := c)) by (rewrite !length_skipn; lia).
  now rewrite !firstn_skipn.
Qed.

(** Taking apart a list of triples part by part only reorders it. *)
Lemma Permutation_concat_thirds {B : Type} (f g h : B -> list A) (ts : list B) :
  Permutation
    (concat (map f ts) ++ concat (map g ts) ++ concat (map h ts))
    (concat (map (fun t => f t ++ g t ++ h t) ts)).
Proof.
  induction ts as [|t ts IH]; [reflexivity|].
  cbn [map concat]. rewrite <- !app_assoc.
  apply Permutation_app_head.
  etransitivity; [apply Permutation_app_swap_app|].
  apply Permutation_app_head.
  etransitivity;
    [apply Permutation_app_head, Permutation_app_swap_app|].
  etransitivity; [apply Permutation_app_swap_app|].
  now apply Permutation_app_head.
Qed.
End PartsLemmas.

Section SystemOverTripleIntegrator.
Context {Scalar : Type} `{ScalarZero Scalar} `{Uninit Scalar}.
Variable d : OptimizationDimensions.t.
Implicit Types state input : VecX Scalar.
Implicit Types Jq_pin Jv_pin : MatX Scalar.

(** The robot mapping: [TripleIntegratorPinocchioMapping] at [d.robot]. *)
Local Abbreviation integrator := (@TripleIntegratorPinocchioMapping.mapping
                                    Scalar _ _).

Lemma integrator_position state :
  rx d = rq d + rv d + rv d -> rx d <= length state ->
  PinocchioStateInputMapping.getPinocchioJointPosition
    (integrator (OptimizationDimensions.robot d)) (firstn (rx d) state)
  = Some (firstn (rq d) state).
Proof.
  intros Hx Hlen. cbn.
  unfold TripleIntegratorPinocchioMapping.getPinocchioJointPosition, head.
  rewrite segment_firstn by lia. now rewrite segment_Some by (simpl; lia).
Qed.

Lemma integrator_velocity state input :
  rx d = rq d + rv d + rv d -> rx d <= length state ->
  PinocchioStateInputMapping.getPinocchioJointVelocity
    (integrator (OptimizationDimensions.robot d)) (firstn (rx d) state) input
  = Some (firstn (rv d) (skipn (rq d) state)).
Proof.
  intros Hx Hlen. cbn.
  unfold TripleIntegratorPinocchioMapping.getPinocchioJointVelocity.
  rewrite segment_firstn by lia. now rewrite segment_Some by lia.
Qed.

Lemma integrator_acceleration state input :
  rx d = rq d + rv d + rv d -> rx d <= length state ->
  PinocchioStateInputMapping.getPinocchioJointAcceleration
    (integrator (OptimizationDimensions.robot d)) (firstn (rx d) state) input
  = Some (firstn (rv d) (skipn (rq d + rv d) state)).
Proof.
  intros Hx Hlen. cbn.
  unfold TripleIntegratorPinocchioMapping.getPinocchioJointAcceleration, tail.
  rewrite length_firstn.
  replace (Nat.min (rx d) (length state)) with (rx d) by lia.
  destruct (Nat.leb_spec (rv d) (rx d)); [|lia].
  rewrite segment_firstn by lia. rewrite segment_Some by lia.
  now replace (rx d - rv d) with (rq d + rv d) by lia.
Qed.

Lemma length_obstacle_parts (part : VecX Scalar -> VecX Scalar) state :
  OptimizationDimensions.x d <= length state ->
  (forall b, length b = 9 -> length (part b) = 3) ->
  length (concat (map (fun i => part (block_at (rx d) 9 i state))
                      (seq 0 (no d))))
  = no d * 3.
Proof.
  intros Hlen Hpart. apply concat_length_uniform. intros i Hi.
  apply Hpart. unfold block_at, OptimizationDimensions.x in *.
  rewrite length_firstn, length_skipn. lia.
Qed.

(** The three vectors that [SystemPinocchioMapping] returns over a
    triple-integrator robot. *)
Lemma system_integrator_results state input :
  rx d = rq d + rv d + rv d ->
  OptimizationDimensions.x d <= length state ->
  ru d <= length input ->
  SystemPinocchioMapping.getPinocchioJointPosition integrator d state
  = Some (position_entries d state)
  /\ SystemPinocchioMapping.getPinocchioJointVelocity integrator d state input
     = Some (velocity_entries d state)
  /\ SystemPinocchioMapping.getPinocchioJointAcceleration
       integrator d state input
     = Some (acceleration_entries d state).
Proof.
  intros Hx Hlen Hin.
  assert (Hrx : rx d <= length state)
    by (unfold OptimizationDimensions.x in Hlen; lia).
  split; [|split].
  - rewrite getPinocchioJointPosition_long, integrator_position by assumption.
    cbn [bind]. rewrite length_firstn.
    replace (Nat.min (rq d) (length state)) with (rq d) by lia.
    now rewrite Nat.eqb_refl.
  - rewrite getPinocchioJointVelocity_long, integrator_velocity by assumption.
    cbn [bind]. rewrite length_firstn, length_skipn.
    replace (Nat.min (rv d) (length state - rq d)) with (rv d) by lia.
    now rewrite Nat.eqb_refl.
  - rewrite getPinocchioJointAcceleration_long, integrator_acceleration
      by assumption.
    cbn [bind]. rewrite length_firstn, length_skipn.
    replace (Nat.min (rv d) (length state - (rq d + rv d))) with (rv d) by lia.
    now rewrite Nat.eqb_refl.
Qed.

(** X8.  With [TripleIntegratorPinocchioMapping] for a robot of
    [x = q + v + v], every operation on vectors is defined on each state of
    at least [x()] entries and input of at least [robot.u]: the position,
    the velocity and the acceleration are the entries of the state at the
    positions, velocities and accelerations of the robot and of each
    obstacle, and have [q()], [v()] and [v()] entries. *)
Theorem system_over_triple_integrator state input :
  rx d = rq d + rv d + rv d ->
  OptimizationDimensions.x d <= length state ->
  ru d <= length input ->
  (SystemPinocchioMapping.getPinocchioJointPosition integrator d state
   = Some (position_entries d state)
   /\ length (position_entries d state) = OptimizationDimensions.q d)
  /\ (SystemPinocchioMapping.getPinocchioJointVelocity integrator d state input
      = Some (velocity_entries d state)
      /\ length (velocity_entries d state) = OptimizationDimensions.v d)
  /\ (SystemPinocchioMapping.getPinocchioJointAcceleration
        integrator d state input
      = Some (acceleration_entries d state)
      /\ length (acceleration_entries d state) = OptimizationDimensions.v d).
Proof.
  intros Hx Hlen Hin.
  assert (Hrx : rx d <= length state)
    by (unfold OptimizationDimensions.x in Hlen; lia).
  assert (Hp : length (position_entries d state) = OptimizationDimensions.q d).
  { unfold position_entries, OptimizationDimensions.q.
    rewrite length_app, (length_obstacle_parts (firstn 3)), length_firstn;
      [lia | assumption |].
    intros b Hb. rewrite length_firstn. lia. }
  assert (Hv : length (velocity_entries d state) = OptimizationDimensions.v d).
  { unfold velocity_entries, OptimizationDimensions.v.
    rewrite length_app, (length_obstacle_parts (fun b => firstn 3 (skipn 3 b))),
      length_firstn, length_skipn; [lia | assumption |].
    intros b Hb. rewrite length_firstn, length_skipn. lia. }
  assert (Ha : length (acceleration_entries d state)
               = OptimizationDimensions.v d).
  { unfold acceleration_entries, OptimizationDimensions.v.
    rewrite length_app, (length_obstacle_parts (fun b => firstn 3 (skipn 6 b))),
      length_firstn, length_skipn; [lia | assumption |].
    intros b Hb. rewrite length_firstn, length_skipn. lia. }
  destruct (@system_integrator_results state input Hx Hlen Hin)
    as (Ep & Ev & Ea).
  split; [|split]; (split; assumption).
Qed.

(** The position, velocity and acceleration entries of a state of [x()]
    entries are, together, the entries of the state, each once. *)
Lemma entries_reorder_state state :
  rx d = rq d + rv d + rv d ->
  length state = OptimizationDimensions.x d ->
  Permutation
    (position_entries d state ++ velocity_entries d state
     ++ acceleration_entries d state)
    state.
Proof.
  intros Hx Hlen. unfold OptimizationDimensions.x in Hlen.
  set (robot_parts := (firstn (rq d) state,
                       firstn (rv d) (skipn (rq d) state),
                       firstn (rv d) (skipn (rq d + rv d) state))).
  set (obstacle_parts := fun i =>
         (firstn 3 (block_at (rx d) 9 i state),
          firstn 3 (skipn 3 (block_at (rx d) 9 i state)),
          firstn 3 (skipn 6 (block_at (rx d) 9 i state)))).
  pose proof (Permutation_concat_thirds
                (fun t : list Scalar * list Scalar * list Scalar =>
                   fst (fst t))
                (fun t => snd (fst t)) (fun t => snd t)
                (robot_parts :: map obstacle_parts (seq 0 (no d)))) as P.
  cbn [map concat fst snd robot_parts] in P.
  rewrite !map_map in P. cbn [obstacle_parts fst snd] in P.
  etransitivity; [exact P|].
  replace (firstn (rq d) state ++ firstn (rv d) (skipn (rq d) state)
           ++ firstn (rv d) (skipn (rq d + rv d) state))
    with (firstn (rx d) state)
    by (rewrite <- (three_parts (rq d) (rv d) (rv d) (firstn (rx d) state))
          by (rewrite length_firstn; lia);
        rewrite !skipn_firstn_comm, !firstn_firstn;
        repeat f_equal; lia).
  rewrite (map_ext_in _ (fun i => block_at (rx d) 9 i state)).
  - rewrite blocks_decompose by lia. reflexivity.
  - intros i Hi. apply in_seq in Hi.
    apply (three_parts 3 3 3).
    unfold block_at. rewrite length_firstn, length_skipn. lia.
Qed.

(** X9.  With [TripleIntegratorPinocchioMapping] for a robot of
    [x = q + v + v], on a state of [x()] entries and an input of at least
    [robot.u], the three operations on vectors are defined and the position,
    the velocity and the acceleration they return are, laid end to end, a
    permutation of the state: the mapping reorders the state and neither
    drops nor repeats an entry. *)
Theorem kinematic_entries_reorder_state state input :
  rx d = rq d + rv d + rv d ->
  length state = OptimizationDimensions.x d ->
  ru d <= length input ->
  exists q_pin v_pin a_pin,
    SystemPinocchioMapping.getPinocchioJointPosition integrator d state
    = Some q_pin
    /\ SystemPinocchioMapping.getPinocchioJointVelocity
         integrator d state input
       = Some v_pin
    /\ SystemPinocchioMapping.getPinocchioJointAcceleration
         integrator d state input
       = Some a_pin
    /\ Permutation (q_pin ++ v_pin ++ a_pin) state.
Proof.
  intros Hx Hlen Hin.
  destruct (@system_integrator_results state input Hx) as (Ep & Ev & Ea);
    [lia | exact Hin |].
  exists (position_entries d state), (velocity_entries d state),
    (acceleration_entries d state).
  split; [exact Ep|]. split; [exact Ev|]. split; [exact Ea|].
  now apply entries_reorder_state.
Qed.
Lemma obstacle_columns_thirds Jq_pin Jv_pin i :
  cols Jq_pin = OptimizationDimensions.q d ->
  cols Jv_pin = OptimizationDimensions.v d ->
  i < no d ->
  firstn 3 (obstacle_columns d Jq_pin Jv_pin i)
  = block_at (rq d) 3 i (coldata Jq_pin)
  /\ firstn 3 (skipn 3 (obstacle_columns d Jq_pin Jv_pin i))
     = block_at (rv d) 3 i (coldata Jv_pin)
  /\ firstn 3 (skipn 6 (obstacle_columns d Jq_pin Jv_pin i))
     = repeat (repeat zero (rows Jq_pin)) 3.
Proof.
  unfold OptimizationDimensions.q, OptimizationDimensions.v, cols.
  intros Hq Hv Hi. unfold obstacle_columns.
  rewrite <- (app_nil_r (repeat _ 3)) at 1 2 3.
  apply (@thirds _ 3).
  - apply length_block_at with (n := no d); lia.
  - apply length_block_at with (n := no d); lia.
  - apply repeat_length.
Qed.

(** X10.  With [TripleIntegratorPinocchioMapping] for a robot of
    [x = q + v + v] and [v > 0], on a state of at least [x()] entries, a
    [Jq_pin] of [q()] columns and a [Jv_pin] of [v()] columns and as many
    rows, [getOcs2Jacobian] is defined and the columns of [dfdx] follow the
    layout of the state: the columns at the positions are the columns of
    [Jq_pin], in order, the columns at the velocities are those of [Jv_pin],
    and the columns at the accelerations are zero; [dfdu] is zero.  So
    [Jq_pin] and [Jv_pin] can be read back from [dfdx]. *)
Theorem jacobian_columns_follow_state_layout state Jq_pin Jv_pin :
  rx d = rq d + rv d + rv d -> 0 < rv d ->
  OptimizationDimensions.x d <= length state ->
  cols Jq_pin = OptimizationDimensions.q d ->
  cols Jv_pin = OptimizationDimensions.v d ->
  rows Jv_pin = rows Jq_pin ->
  exists dfdx,
    SystemPinocchioMapping.getOcs2Jacobian integrator d state Jq_pin Jv_pin
    = Some (dfdx, Zero (rows Jq_pin) (ru d))
    /\ rows dfdx = rows Jq_pin
    /\ cols dfdx = OptimizationDimensions.x d
    /\ position_entries d (coldata dfdx) = coldata Jq_pin
    /\ velocity_entries d (coldata dfdx) = coldata Jv_pin
    /\ acceleration_entries d (coldata dfdx)
       = repeat (repeat zero (rows Jq_pin)) (OptimizationDimensions.v d).
Proof.
  intros Hx Hrv Hlen Hq Hv Hr.
  assert (Hq' := Hq). assert (Hv' := Hv).
  unfold OptimizationDimensions.q, cols in Hq'.
  unfold OptimizationDimensions.v, cols in Hv'.
  set (A := firstn (rq d) (coldata Jq_pin)).
  set (B := firstn (rv d) (coldata Jv_pin)).
  set (Z := repeat (repeat zero (rows Jq_pin)) (rv d)).
  assert (HA : length A = rq d) by (unfold A; rewrite length_firstn; lia).
  assert (HB : length B = rv d) by (unfold B; rewrite length_firstn; lia).
  assert (HZ : length Z = rv d) by apply repeat_length.
  assert (Hoc : forall i, i < no d ->
                  length (obstacle_columns d Jq_pin Jv_pin i) = 9).
  { intros i Hi. unfold obstacle_columns.
    rewrite !length_app, repeat_length.
    rewrite !(@length_block_at _ _ 3 (no d)) by lia. reflexivity. }
  set (C := (A ++ B ++ Z ++ [])
            ++ concat (map (obstacle_columns d Jq_pin Jv_pin)
                           (seq 0 (no d)))
            ++ []).
  assert (HR : length (A ++ B ++ Z ++ []) = rx d)
    by (rewrite !length_app; simpl; lia).
  exists (mkMat (rows Jq_pin) C).
  assert (Hblock : forall i, i < no d ->
                     block_at (rx d) 9 i C
                     = obstacle_columns d Jq_pin Jv_pin i).
  { intros i Hi. unfold C. now apply block_at_concat. }
  split; [|split; [reflexivity|split; [|split; [|split]]]].
  - rewrite getOcs2Jacobian_long by (try (intros _; exact Hr); lia).
    cbn [PinocchioStateInputMapping.getOcs2Jacobian
         TripleIntegratorPinocchioMapping.mapping].
    rewrite triple_integrator_jacobian by (cbn [rows]; assumption).
    cbn [bind rows]. unfold hcat, Zero, cols. cbn [rows coldata].
    rewrite !length_app, !repeat_length. fold A B. rewrite HA, HB.
    rewrite !Nat.eqb_refl, (proj2 (Nat.eqb_eq _ _) (eq_sym Hx)).
    cbn [andb]. unfold C, Z. now rewrite !app_nil_r, <- !app_assoc.
  - unfold cols, C, OptimizationDimensions.x. cbn [coldata].
    rewrite length_app, HR, length_app,
      concat_length_uniform with (w := 9); [simpl; lia|].
    intros i Hi. apply Hoc. lia.
  - unfold position_entries. cbn [coldata].
    rewrite (map_ext_in _ (fun i => block_at (rq d) 3 i (coldata Jq_pin))).
    + replace (firstn (rq d) C) with A.
      * unfold A. apply blocks_decompose. lia.
      * unfold C. rewrite <- !app_assoc. symmetry. now apply firstn_exact.
    + intros i Hi. apply in_seq in Hi. rewrite Hblock by lia.
      now destruct (obstacle_columns_thirds Jq_pin Jv_pin Hq Hv (i := i))
        as (-> & _); [lia|].
  - unfold velocity_entries. cbn [coldata].
    rewrite (map_ext_in _ (fun i => block_at (rv d) 3 i (coldata Jv_pin))).
    + replace (firstn (rv d) (skipn (rq d) C)) with B.
      * unfold B. apply blocks_decompose. lia.
      * unfold C. rewrite <- !app_assoc.
        rewrite skipn_exact by exact HA. symmetry. now apply firstn_exact.
    + intros i Hi. apply in_seq in Hi. rewrite Hblock by lia.
      now destruct (obstacle_columns_thirds Jq_pin Jv_pin Hq Hv (i := i))
        as (_ & -> & _); [lia|].
  - unfold acceleration_entries. cbn [coldata].
    rewrite (map_ext_in _ (fun _ => repeat (repeat zero (rows Jq_pin)) 3)).
    + replace (firstn (rv d) (skipn (rq d + rv d) C)) with Z.
      * rewrite concat_repeat, length_seq. unfold Z.
        rewrite <- repeat_app. f_equal.
        unfold OptimizationDimensions.v. lia.
      * unfold C. rewrite <- !app_assoc.
        replace (rq d + rv d) with (rv d + rq d) by lia.
        rewrite <- skipn_skipn, skipn_exact by exact HA.
        rewrite skipn_exact by exact HB. symmetry. now apply firstn_exact.
    + intros i Hi. apply in_seq in Hi. rewrite Hblock by lia.
      now destruct (obstacle_columns_thirds Jq_pin Jv_pin Hq Hv (i := i))
        as (_ & _ & ->); [lia|].
Qed.
End SystemOverTripleIntegrator.

(** ** One more obstacle *)

Section OneMoreObstacle.
Context {Scalar : Type} `{ScalarZero Scalar} `{Uninit Scalar}.
Variable Mapping : RobotDimensions.t -> PinocchioStateInputMapping.t Scalar.
Variable d : OptimizationDimensions.t.
Implicit Types state input x_obs : VecX Scalar.

Lemma x_add_obstacle :
  OptimizationDimensions.x (add_obstacle d) = OptimizationDimensions.x d + 9.
Proof. unfold OptimizationDimensions.x, add_obstacle. simpl. lia. Qed.

(** The blocks of a state with the entries of one more obstacle. *)
Lemma parts_with_new_obstacle (part : VecX Scalar -> VecX Scalar)
    state x_obs :
  length state = OptimizationDimensions.x d -> length x_obs = 9 ->
  concat (map (fun i => part (block_at (rx d) 9 i (state ++ x_obs)))
              (seq 0 (S (no d))))
  = concat (map (fun i => part (block_at (rx d) 9 i state)) (seq 0 (no d)))
    ++ part x_obs.
Proof.
  unfold OptimizationDimensions.x. intros Hlen Hobs.
  rewrite seq_S, map_app, concat_app. cbn [map concat plus].
  rewrite block_at_app_right by lia. rewrite app_nil_r. f_equal. f_equal.
  apply map_ext_in. intros i Hi. apply in_seq in Hi.
  now rewrite block_at_app_left by lia.
Qed.

Lemma robot_state_with_new_obstacle state x_obs :
  length state = OptimizationDimensions.x d ->
  firstn (rx d) (state ++ x_obs) = firstn (rx d) state.
Proof.
  unfold OptimizationDimensions.x. intros Hlen.
  rewrite firstn_app. replace (rx d - length state) with 0 by lia.
  simpl. apply app_nil_r.
Qed.

(** X11.  Appending the nine entries of one more obstacle to a state of
    [x()] entries appends its position, its velocity and its acceleration to
    the three results, and leaves what was there as it was. *)
Theorem appending_an_obstacle state input x_obs :
  length state = OptimizationDimensions.x d -> length x_obs = 9 ->
  SystemPinocchioMapping.getPinocchioJointPosition Mapping (add_obstacle d)
    (state ++ x_obs)
  = option_map (fun q_pin => q_pin ++ firstn 3 x_obs)
      (SystemPinocchioMapping.getPinocchioJointPosition Mapping d state)
  /\ SystemPinocchioMapping.getPinocchioJointVelocity Mapping (add_obstacle d)
       (state ++ x_obs) input
     = option_map (fun v_pin => v_pin ++ firstn 3 (skipn 3 x_obs))
         (SystemPinocchioMapping.getPinocchioJointVelocity
            Mapping d state input)
  /\ SystemPinocchioMapping.getPinocchioJointAcceleration
       Mapping (add_obstacle d) (state ++ x_obs) input
     = option_map (fun a_pin => a_pin ++ firstn 3 (skipn 6 x_obs))
         (SystemPinocchioMapping.getPinocchioJointAcceleration
            Mapping d state input).
Proof.
  intros Hlen Hobs.
  assert (Hlen' : OptimizationDimensions.x (add_obstacle d)
                  <= length (state ++ x_obs))
    by (rewrite x_add_obstacle, length_app; lia).
  split; [|split].
  - rewrite (getPinocchioJointPosition_long Mapping (add_obstacle d))
      by assumption.
    rewrite (getPinocchioJointPosition_long Mapping d) by lia.
    cbn [add_obstacle OptimizationDimensions.robot OptimizationDimensions.o].
    rewrite robot_state_with_new_obstacle by assumption.
    rewrite (parts_with_new_obstacle (firstn 3)) by assumption.
    destruct (PinocchioStateInputMapping.getPinocchioJointPosition _ _)
      as [q_robot|]; [|reflexivity]. cbn [bind].
    destruct (length q_robot =? rq d); [|reflexivity].
    cbn [option_map]. now rewrite app_assoc.
  - destruct (Nat.lt_ge_cases (length input) (ru d)) as [Hin|Hin].
    { rewrite !getPinocchioJointVelocity_short by now right. reflexivity. }
    rewrite (getPinocchioJointVelocity_long Mapping (add_obstacle d))
      by assumption.
    rewrite (getPinocchioJointVelocity_long Mapping d) by lia.
    cbn [add_obstacle OptimizationDimensions.robot OptimizationDimensions.o].
    rewrite robot_state_with_new_obstacle by assumption.
    rewrite (parts_with_new_obstacle (fun b => firstn 3 (skipn 3 b)))
      by assumption.
    destruct (PinocchioStateInputMapping.getPinocchioJointVelocity _ _ _)
      as [v_robot|]; [|reflexivity]. cbn [bind].
    destruct (length v_robot =? rv d); [|reflexivity].
    cbn [option_map]. now rewrite app_assoc.
  - destruct (Nat.lt_ge_cases (length input) (ru d)) as [Hin|Hin].
    { rewrite !getPinocchioJointAcceleration_short by now right.
      reflexivity. }
    rewrite (getPinocchioJointAcceleration_long Mapping (add_obstacle d))
      by assumption.
    rewrite (getPinocchioJointAcceleration_long Mapping d) by lia.
    cbn [add_obstacle OptimizationDimensions.robot OptimizationDimensions.o].
    rewrite robot_state_with_new_obstacle by assumption.
    rewrite (parts_with_new_obstacle (fun b => firstn 3 (skipn 6 b)))
      by assumption.
    destruct (PinocchioStateInputMapping.getPinocchioJointAcceleration _ _ _)
      as [a_robot|]; [|reflexivity]. cbn [bind].
    destruct (length a_robot =? rv d); [|reflexivity].
    cbn [option_map]. now rewrite app_assoc.
Qed.

Lemma q_add_obstacle :
  OptimizationDimensions.q (add_obstacle d) = OptimizationDimensions.q d + 3.
Proof. unfold OptimizationDimensions.q, add_obstacle. simpl. lia. Qed.

Lemma v_add_obstacle :
  OptimizationDimensions.v (add_obstacle d) = OptimizationDimensions.v d + 3.
Proof. unfold OptimizationDimensions.v, add_obstacle. simpl. lia. Qed.

Lemma firstn_app_left {A : Type} n (l b : list A) :
  n <= length l -> firstn n (l ++ b) = firstn n l.
Proof.
  intros Hle. rewrite firstn_app. replace (n - length l) with 0 by lia.
  simpl. apply app_nil_r.
Qed.

(** The column blocks of the obstacles when [Jq_pin] and [Jv_pin] get the
    three columns of one more obstacle each. *)
Lemma obstacle_columns_with_new_obstacle
    (Jq_pin Jv_pin : MatX Scalar) (Jq_obs Jv_obs : list (list Scalar)) :
  cols Jq_pin = OptimizationDimensions.q d ->
  cols Jv_pin = OptimizationDimensions.v d ->
  length Jq_obs = 3 -> length Jv_obs = 3 ->
  concat (map (obstacle_columns (add_obstacle d)
                 (mkMat (rows Jq_pin) (coldata Jq_pin ++ Jq_obs))
                 (mkMat (rows Jv_pin) (coldata Jv_pin ++ Jv_obs)))
              (seq 0 (S (no d))))
  = concat (map (obstacle_columns d Jq_pin Jv_pin) (seq 0 (no d)))
    ++ Jq_obs ++ Jv_obs ++ repeat (repeat zero (rows Jq_pin)) 3.
Proof.
  unfold cols, OptimizationDimensions.q, OptimizationDimensions.v.
  intros Hq Hv HJq HJv.
  rewrite seq_S, map_app, concat_app. cbn [map concat plus].
  rewrite app_nil_r. f_equal.
  - f_equal. apply map_ext_in. intros i Hi. apply in_seq in Hi.
    unfold obstacle_columns.
    cbn [add_obstacle OptimizationDimensions.robot rows coldata].
    now rewrite !block_at_app_left by lia.
  - unfold obstacle_columns.
    cbn [add_obstacle OptimizationDimensions.robot rows coldata].
    now rewrite !block_at_app_right by lia.
Qed.

(** X12.  For a [Jq_pin] of [q()] columns and a [Jv_pin] of [v()] columns
    and as many rows as [Jq_pin]: with one more obstacle, whose nine entries
    are appended to a state of [x()] entries and whose three columns are
    appended to [Jq_pin] and to [Jv_pin], [getOcs2Jacobian] appends nine
    columns to [dfdx]: the three new columns of [Jq_pin], the three new
    columns of [Jv_pin] and three zero columns.  The columns that were
    there, and [dfdu], stay as they were, and a call that stopped at an
    assertion still does. *)
Theorem jacobian_with_one_more_obstacle state x_obs
    (Jq_pin Jv_pin : MatX Scalar) (Jq_obs Jv_obs : list (list Scalar)) :
  length state = OptimizationDimensions.x d -> length x_obs = 9 ->
  cols Jq_pin = OptimizationDimensions.q d ->
  cols Jv_pin = OptimizationDimensions.v d ->
  rows Jv_pin = rows Jq_pin ->
  length Jq_obs = 3 -> length Jv_obs = 3 ->
  SystemPinocchioMapping.getOcs2Jacobian Mapping (add_obstacle d)
    (state ++ x_obs)
    (mkMat (rows Jq_pin) (coldata Jq_pin ++ Jq_obs))
    (mkMat (rows Jv_pin) (coldata Jv_pin ++ Jv_obs))
  = option_map
      (fun r => (mkMat (rows (fst r))
                   (coldata (fst r) ++ Jq_obs ++ Jv_obs
                    ++ repeat (repeat zero (rows Jq_pin)) 3),
                 snd r))
      (SystemPinocchioMapping.getOcs2Jacobian Mapping d state Jq_pin Jv_pin).
Proof.
  intros Hlen Hobs Hq Hv Hr HJq HJv.
  rewrite (getOcs2Jacobian_long Mapping (add_obstacle d));
    [ | rewrite x_add_obstacle, length_app; lia
      | rewrite q_add_obstacle; unfold cols in *; cbn [coldata];
        rewrite length_app; lia
      | rewrite v_add_obstacle; unfold cols in *; cbn [coldata];
        rewrite length_app; lia
      | intros _; exact Hr ].
  rewrite (getOcs2Jacobian_long Mapping d) by (try (intros _; exact Hr); lia).
  rewrite obstacle_columns_with_new_obstacle by assumption.
  cbn [add_obstacle OptimizationDimensions.robot rows coldata].
  rewrite robot_state_with_new_obstacle by assumption.
  rewrite !firstn_app_left
    by (unfold cols, OptimizationDimensions.q, OptimizationDimensions.v in *;
        lia).
  destruct (PinocchioStateInputMapping.getOcs2Jacobian _ _ _ _)
    as [[dfdx_robot dfdu_robot]|]; [|reflexivity]. cbn [bind].
  destruct ((rows dfdx_robot =? rows Jq_pin) && _ && _ && _);
    [|reflexivity].
  cbn [option_map fst snd rows coldata]. now rewrite <- app_assoc.
Qed.
End OneMoreObstacle.

(** ** The obstacles' entries and the Jacobian *)

Section ObstacleEntriesUnused.
Context {Scalar : Type} `{ScalarZero Scalar} `{Uninit Scalar}.
Variable Mapping : RobotDimensions.t -> PinocchioStateInputMapping.t Scalar.
Variable d : OptimizationDimensions.t.
Implicit Types state : VecX Scalar.
Implicit Types Jq_pin Jv_pin : MatX Scalar.

(** X13.  The Jacobian does not depend on the obstacles' entries of the
    state: two states of at least [x()] entries with the same first
    [robot.x] entries give the same result, matrices or assertion, for every
    robot mapping, [Jq_pin] and [Jv_pin]. *)
Theorem jacobian_ignores_obstacle_entries state1 state2 Jq_pin Jv_pin :
  OptimizationDimensions.x d <= length state1 ->
  OptimizationDimensions.x d <= length state2 ->
  firstn (rx d) state1 = firstn (rx d) state2 ->
  SystemPinocchioMapping.getOcs2Jacobian Mapping d state1 Jq_pin Jv_pin
  = SystemPinocchioMapping.getOcs2Jacobian Mapping d state2 Jq_pin Jv_pin.
Proof.
  intros Hlen1 Hlen2 Hrobot.
  destruct (Nat.lt_ge_cases (cols Jq_pin) (OptimizationDimensions.q d))
    as [Hlt|Hq].
  { now rewrite !getOcs2Jacobian_narrow by now left. }
  destruct (Nat.lt_ge_cases (cols Jv_pin) (OptimizationDimensions.v d))
    as [Hlt|Hv].
  { now rewrite !getOcs2Jacobian_narrow by now right. }
  destruct (Nat.eq_dec (no d) 0) as [Ho|Ho].
  - rewrite !getOcs2Jacobian_long by (try (intros Hpos); lia).
    now rewrite Hrobot.
  - destruct (Nat.eq_dec (rows Jv_pin) (rows Jq_pin)) as [Hr|Hr].
    + rewrite !getOcs2Jacobian_long by (try (intros _; exact Hr); lia).
      now rewrite Hrobot.
    + now rewrite !getOcs2Jacobian_rows_mismatch by (assumption || lia).
Qed.
End ObstacleEntriesUnused.

(** ** The further properties on the sample robot with two obstacles *)

Lemma system_over_triple_integrator_witness :
  (@SystemPinocchioMapping.getPinocchioJointPosition Z Z_zero stale
      integrator_robot
     sample_dims sample_state
   = Some [10; 101; 102; 103; 201; 202; 203]%Z
   /\ length (position_entries sample_dims sample_state) = 7)
  /\ (@SystemPinocchioMapping.getPinocchioJointVelocity Z Z_zero stale
      integrator_robot
        sample_dims sample_state sample_input
      = Some [20; 104; 105; 106; 204; 205; 206]%Z
      /\ length (velocity_entries sample_dims sample_state) = 7)
  /\ (@SystemPinocchioMapping.getPinocchioJointAcceleration Z Z_zero stale
      integrator_robot
        sample_dims sample_state sample_input
      = Some [30; 107; 108; 109; 207; 208; 209]%Z
      /\ length (acceleration_entries sample_dims sample_state) = 7).
Proof.
  apply (@system_over_triple_integrator Z Z_zero stale sample_dims
           sample_state sample_input).
  - reflexivity.
  - vm_compute. lia.
  - vm_compute. lia.
Defined.

Lemma kinematic_entries_reorder_state_witness :
  exists q_pin v_pin a_pin,
    @SystemPinocchioMapping.getPinocchioJointPosition Z Z_zero stale
      integrator_robot sample_dims sample_state
    = Some q_pin
    /\ @SystemPinocchioMapping.getPinocchioJointVelocity Z Z_zero stale
         integrator_robot sample_dims sample_state sample_input
       = Some v_pin
    /\ @SystemPinocchioMapping.getPinocchioJointAcceleration Z Z_zero stale
         integrator_robot sample_dims sample_state sample_input
       = Some a_pin
    /\ Permutation (q_pin ++ v_pin ++ a_pin) sample_state.
Proof.
  apply (@kinematic_entries_reorder_state Z Z_zero stale sample_dims
           sample_state sample_input).
  - reflexivity.
  - reflexivity.
  - vm_compute. lia.
Defined.

Lemma jacobian_columns_follow_state_layout_witness :
  exists dfdx,
    @SystemPinocchioMapping.getOcs2Jacobian Z Z_zero stale
      integrator_robot sample_dims
      sample_state sample_Jq sample_Jv
    = Some (dfdx, mkMat 2 [[0; 0]]%Z)
    /\ rows dfdx = 2
    /\ cols dfdx = 21
    /\ position_entries sample_dims (coldata dfdx) = coldata sample_Jq
    /\ velocity_entries sample_dims (coldata dfdx) = coldata sample_Jv
    /\ acceleration_entries sample_dims (coldata dfdx)
       = repeat [0; 0]%Z 7.
Proof.
  apply (@jacobian_columns_follow_state_layout Z Z_zero stale sample_dims
           sample_state sample_Jq sample_Jv).
  - reflexivity.
  - vm_compute. lia.
  - vm_compute. lia.
  - reflexivity.
  - reflexivity.
  - reflexivity.
Defined.

Lemma appending_an_obstacle_witness :
  @SystemPinocchioMapping.getPinocchioJointPosition Z Z_zero stale
      integrator_robot
    (add_obstacle sample_dims) (sample_state ++ new_obstacle)
  = Some [10; 101; 102; 103; 201; 202; 203; 301; 302; 303]%Z
  /\ @SystemPinocchioMapping.getPinocchioJointVelocity Z Z_zero stale
      integrator_robot
       (add_obstacle sample_dims) (sample_state ++ new_obstacle) sample_input
     = Some [20; 104; 105; 106; 204; 205; 206; 304; 305; 306]%Z
  /\ @SystemPinocchioMapping.getPinocchioJointAcceleration Z Z_zero stale
      integrator_robot
       (add_obstacle sample_dims) (sample_state ++ new_obstacle) sample_input
     = Some [30; 107; 108; 109; 207; 208; 209; 307; 308; 309]%Z.
Proof.
  apply (@appending_an_obstacle Z Z_zero stale integrator_robot sample_dims
           sample_state sample_input new_obstacle).
  - reflexivity.
  - reflexivity.
Defined.

Lemma jacobian_with_one_more_obstacle_witness :
  @SystemPinocchioMapping.getOcs2Jacobian Z Z_zero stale
      integrator_robot
    (add_obstacle sample_dims) (sample_state ++ new_obstacle)
    (mkMat 2 (coldata sample_Jq ++ [[8; 18]; [9; 19]; [10; 20]]%Z))
    (mkMat 2 (coldata sample_Jv ++ [[28; 38]; [29; 39]; [30; 40]]%Z))
  = option_map
      (fun r => (mkMat (rows (fst r))
                   (coldata (fst r)
                    ++ [[8; 18]; [9; 19]; [10; 20]]%Z
                    ++ [[28; 38]; [29; 39]; [30; 40]]%Z
                    ++ repeat [0; 0]%Z 3),
                 snd r))
      (@SystemPinocchioMapping.getOcs2Jacobian Z Z_zero stale
      integrator_robot sample_dims
         sample_state sample_Jq sample_Jv).
Proof.
  apply (@jacobian_with_one_more_obstacle Z Z_zero stale integrator_robot
           sample_dims sample_state new_obstacle sample_Jq sample_Jv
           [[8; 18]; [9; 19]; [10; 20]]%Z
           [[28; 38]; [29; 39]; [30; 40]]%Z).
  - reflexivity.
  - reflexivity.
  - reflexivity.
  - reflexivity.
  - reflexivity.
  - reflexivity.
  - reflexivity.
Defined.

Lemma jacobian_ignores_obstacle_entries_witness :
  @SystemPinocchioMapping.getOcs2Jacobian Z Z_zero stale integrator_robot
    sample_dims sample_state sample_Jq sample_Jv
  = @SystemPinocchioMapping.getOcs2Jacobian Z Z_zero stale integrator_robot
      sample_dims ([10; 20; 30]%Z ++ repeat 0%Z 18) sample_Jq sample_Jv.
Proof.
  apply (@jacobian_ignores_obstacle_entries Z Z_zero stale integrator_robot
           sample_dims sample_state ([10; 20; 30]%Z ++ repeat 0%Z 18)
           sample_Jq sample_Jv).
  - vm_compute. lia.
  - vm_compute. lia.
  - reflexivity.
Defined.
